(** * Helium auto-updater: a shallow embedding of [auto_updater.py]

    The development follows the class [HeliumUpdater] method by method.
    Python values that come out of [json.loads] are modelled by the
    inductive [pyval]; dictionaries are finite maps with string keys, the
    file system is a finite map from paths to file contents, and the
    network, the process table and the clock are gathered in a [world]
    record.  Code that can raise is written in an exception monad, code
    that also touches the file system in a state-and-exception monad.

    Modelling conventions, stated once:
    - strings are ASCII strings; [str.lower] acts on the letters A-Z only
      and [int] knows the ASCII digits and the ASCII white space only;
    - integers are unbounded; [int] refuses a literal of more digits than
      the interpreter's limit, at its default of 4300;
    - exceptions are the subclasses of [Exception];
    - the file map holds the regular files; what else a path can name,
      and what the host refuses, is in the [world];
    - [tempfile.gettempdir()] finds a directory. *)

From Stdlib Require Import ZArith String Ascii List Lia.
From Stdlib.Strings Require Import Byte.
From stdpp Require Import base option gmap strings list.

Set Warnings "-register-all".
#[local] Open Scope string_scope.
#[local] Open Scope list_scope.
#[local] Open Scope Z_scope.

(** ** Exceptions and results *)

Inductive exn : Type :=
| ValueError
| AttributeError
| TypeError
| IndexError
| FileNotFoundError
| OSError
| URLError
| TimeoutExpired
| OtherError (what : string).

Inductive result (A : Type) : Type :=
| Ok (a : A)
| Raise (e : exn).
Arguments Ok {A} a.
Arguments Raise {A} e.

#[global] Instance result_ret : MRet result := fun _ a => Ok a.
#[global] Instance result_bind : MBind result := fun _ _ f m =>
  match m with
  | Ok a => f a
  | Raise e => Raise e
  end.

Definition is_ValueError (e : exn) : bool :=
  match e with
  | ValueError => true
  | _ => false
  end.

(** [try: body except <class>: handler], the class given by its test. *)
Definition try_except {A} (body : result A) (catches : exn -> bool)
    (handler : exn -> result A) : result A :=
  match body with
  | Ok a => Ok a
  | Raise e => if catches e then handler e else Raise e
  end.

(** ** Strings *)

Module PyStr.

Definition is_upper (c : ascii) : bool :=
  let n := nat_of_ascii c in (65 <=? n)%nat && (n <=? 90)%nat.

Definition lower_char (c : ascii) : ascii :=
  if is_upper c then ascii_of_nat (nat_of_ascii c + 32) else c.

(** [s.lower()] *)
Fixpoint lower (s : string) : string :=
  match s with
  | EmptyString => EmptyString
  | String c s' => String (lower_char c) (lower s')
  end.

Fixpoint mem_char (c : ascii) (chars : string) : bool :=
  match chars with
  | EmptyString => false
  | String d chars' => Ascii.eqb c d || mem_char c chars'
  end.

(** [s.lstrip(chars)]: drops every leading character that occurs in
    [chars]. *)
Fixpoint lstrip (chars s : string) : string :=
  match s with
  | EmptyString => EmptyString
  | String c s' => if mem_char c chars then lstrip chars s' else s
  end.

(** [s.split(sep)] for a separator of one character. *)
Fixpoint split (sep : ascii) (s : string) : list string :=
  match s with
  | EmptyString => [EmptyString]
  | String c s' =>
      if Ascii.eqb c sep then EmptyString :: split sep s'
      else match split sep s' with
           | x :: xs => String c x :: xs
           | [] => [String c EmptyString]
           end
  end.

(** [s.startswith(p)] *)
Fixpoint startswith (p s : string) : bool :=
  match p, s with
  | EmptyString, _ => true
  | String a p', String b s' => Ascii.eqb a b && startswith p' s'
  | String _ _, EmptyString => false
  end.

(** [needle in hay] *)
Fixpoint contains (needle hay : string) : bool :=
  startswith needle hay ||
  match hay with
  | EmptyString => false
  | String _ hay' => contains needle hay'
  end.

(** [s.endswith(suffix)] *)
Fixpoint endswith (suffix s : string) : bool :=
  String.eqb suffix s ||
  match s with
  | EmptyString => false
  | String _ s' => endswith suffix s'
  end.

Definition is_space (c : ascii) : bool :=
  let n := nat_of_ascii c in
  ((9 <=? n)%nat && (n <=? 13)%nat) || (n =? 32)%nat.

Definition digit_value (c : ascii) : option Z :=
  let n := nat_of_ascii c in
  if (48 <=? n)%nat && (n <=? 57)%nat then Some (Z.of_nat n - 48) else None.

Fixpoint skip_spaces (s : string) : string :=
  match s with
  | EmptyString => EmptyString
  | String c s' => if is_space c then skip_spaces s' else s
  end.

(** The digits of an integer literal: decimal digits, single underscores
    allowed between two digits.  [prev_us] tells that the last character
    read was an underscore.  Returns the value and what follows the
    literal, or [None] for a misplaced underscore. *)
Fixpoint scan_digits (s : string) (acc : Z) (prev_us : bool)
    : option (Z * string) :=
  match s with
  | EmptyString => if prev_us then None else Some (acc, EmptyString)
  | String c s' =>
      match digit_value c with
      | Some d => scan_digits s' (10 * acc + d) false
      | None =>
          if Ascii.eqb c "_"
          then (if prev_us then None else scan_digits s' acc true)
          else (if prev_us then None else Some (acc, s))
      end
  end.

(** The digits in the literal at the head of [s], underscores not
    counted. *)
Fixpoint count_digits (s : string) : nat :=
  match s with
  | EmptyString => O
  | String c s' =>
      match digit_value c with
      | Some _ => S (count_digits s')
      | None => if Ascii.eqb c "_" then count_digits s' else O
      end
  end.

(** [sys.get_int_max_str_digits()], at its default. *)
Definition int_max_str_digits : nat := 4300.

Definition split_sign (s : string) : bool * string :=
  match s with
  | String c s' =>
      if Ascii.eqb c "+" then (false, s')
      else if Ascii.eqb c "-" then (true, s')
      else (false, s)
  | EmptyString => (false, s)
  end.

(** [int(s)] for a string argument: optional white space, an optional
    sign, the digits, optional white space; anything else is a
    [ValueError], and so is a literal of more digits than the limit. *)
Definition int (s : string) : result Z :=
  let '(neg, body) := split_sign (skip_spaces s) in
  match body with
  | EmptyString => Raise ValueError
  | String c _ =>
      match digit_value c with
      | None => Raise ValueError
      | Some _ =>
          match scan_digits body 0 false with
          | None => Raise ValueError
          | Some (v, rest) =>
              if (int_max_str_digits <? count_digits body)%nat
              then Raise ValueError
              else
                match skip_spaces rest with
                | EmptyString => Ok (if neg then - v else v)
                | String _ _ => Raise ValueError
                end
          end
      end
  end.

End PyStr.

(** [l[i]], raising [IndexError] out of range (non-negative [i]). *)
Definition list_index {A} (l : list A) (i : nat) : result A :=
  match l !! i with
  | Some a => Ok a
  | None => Raise IndexError
  end.

(** ** Version comparison *)

(** [a > b] on Python lists of integers: the first position where the two
    lists differ decides; if one is a prefix of the other, the longer one
    is the greater. *)
Fixpoint list_gt (a b : list Z) : bool :=
  match a, b with
  | x :: a', y :: b' => if x =? y then list_gt a' b' else y <? x
  | _ :: _, [] => true
  | [], _ => false
  end.

(** The inner function [parse_version]. *)
Definition parse_version (v : string) : result (list Z) :=
  v ← list_index (PyStr.split "-" v) 0;
  mapM PyStr.int (PyStr.split "." v).

(** [v.extend([0] * (max_len - len(v)))]; a negative count gives the
    empty list, as does the truncated subtraction here. *)
Definition extend_zeros (v : list Z) (max_len : nat) : list Z :=
  v ++ replicate (max_len - length v)%nat 0.

Definition _is_newer_version (version1 version2 : string) : result bool :=
  try_except
    (v1_parts ← parse_version version1;
     v2_parts ← parse_version version2;
     let max_len := Nat.max (length v1_parts) (length v2_parts) in
     let v1_parts := extend_zeros v1_parts max_len in
     let v2_parts := extend_zeros v2_parts max_len in
     mret (list_gt v1_parts v2_parts))
    is_ValueError
    (fun _ => Ok false).

(** ** Python values *)

(** What [json.loads] can produce (floats left out), and what the methods
    pass around. *)
Inductive pyval : Type :=
| PNone
| PBool (b : bool)
| PInt (z : Z)
| PStr (s : string)
| PList (l : list pyval)
| PDict (d : gmap string pyval).

Module PyVal.

(** Truth value of an object, as [if v], [not v] and [or] test it. *)
Definition truthy (v : pyval) : bool :=
  match v with
  | PNone => false
  | PBool b => b
  | PInt z => negb (z =? 0)
  | PStr s => negb (String.eqb s "")
  | PList l => negb (bool_decide (l = []))
  | PDict d => negb (bool_decide (d = ∅))
  end.

(** [a or b], both operands already evaluated. *)
Definition or (a b : pyval) : pyval := if truthy a then a else b.

(** [v.get(key, dflt)]; only dictionaries have the method. *)
Definition get (v : pyval) (key : string) (dflt : pyval) : result pyval :=
  match v with
  | PDict d => Ok (default dflt (d !! key))
  | _ => Raise AttributeError
  end.

(** [v.lower()] and [v.lstrip(chars)]; only strings have the methods. *)
Definition lower (v : pyval) : result string :=
  match v with
  | PStr s => Ok (PyStr.lower s)
  | _ => Raise AttributeError
  end.

Definition lstrip (v : pyval) (chars : string) : result string :=
  match v with
  | PStr s => Ok (PyStr.lstrip chars s)
  | _ => Raise AttributeError
  end.

(** The elements a [for] loop over [v] visits.  A string yields its
    characters, a dictionary its keys (here in the order of the finite
    map, not in insertion order). *)
Definition iter (v : pyval) : result (list pyval) :=
  match v with
  | PList l => Ok l
  | PStr s => Ok ((fun c => PStr (String c EmptyString)) <$> list_ascii_of_string s)
  | PDict d => Ok ((fun kv => PStr kv.1) <$> map_to_list d)
  | PNone | PBool _ | PInt _ => Raise TypeError
  end.

End PyVal.

(** ** The world outside the program *)

(** An HTTP response being streamed: the [Content-Length] header if the
    server sent one, and what the successive calls of [read] give, a block
    of bytes or an exception.  After the last entry the stream is at its
    end and [read] gives the empty block. *)
Record response : Type := {
  resp_content_length : option string;
  resp_reads : list (exn + list byte)
}.

(** A child process whose output is captured as text: it cannot be
    started, or it runs.  Then it exits after some time ([None]: never)
    with a status, the pipes of its output reach their end after some
    time ([None]: never, something it started holds them open), and
    decoding what was captured raises or not. *)
Inductive child : Type :=
| SpawnFails (e : exn)
| Runs (duration : option Z) (pipes_closed : option Z) (returncode : Z)
       (decode_error : option exn).

Record world : Type := {
  (** [platform.machine()] *)
  w_machine : string;
  (** A GET of the URL with these headers and this timeout, the body
      decoded and given to [json.loads]: the value, or what was raised on
      the way. *)
  w_get_json : string -> list (string * string) -> Z -> exn + pyval;
  (** [urlopen] of a request for the URL with these headers and this
      timeout. *)
  w_urlopen : string -> list (string * string) -> Z -> exn + response;
  (** [tempfile.gettempdir()] *)
  w_tempdir : string;
  (** [str(Path(dir) / name)] *)
  w_path_join : string -> string -> string;
  (** Whether [open(path, 'wb')] is refused. *)
  w_open_fault : string -> option exn;
  (** Whether the n-th [write] of a download is refused. *)
  w_write_fault : nat -> option exn;
  (** What the process started with these arguments does. *)
  w_child : list string -> child;
  (** Whether [Path(p).exists()] raises (a name too long, for one). *)
  w_exists_fault : string -> option exn;
  (** Whether the path names a directory. *)
  w_is_dir : string -> bool;
  (** Whether the deletion of the file at the path is refused. *)
  w_unlink_fault : string -> option exn
}.

Inductive event : Type :=
| EvUrlopen (url : string) (headers : list (string * string)) (timeout : Z)
| EvOpen (path : string)
| EvWrite (path : string) (chunk : list byte)
| EvProgress (downloaded total : Z)
| EvUnlink (path : string)
| EvSpawn (argv : list string) (timeout : Z)
| EvPrint (what : string) (e : exn).

(** The mutable part: the files, and the events so far (latest last). *)
Record state : Type := {
  st_fs : gmap string (list byte);
  st_trace : list event
}.

(** ** State and exceptions *)

Definition M (A : Type) : Type := state -> result A * state.

#[global] Instance M_ret : MRet M := fun _ a st => (Ok a, st).
#[global] Instance M_bind : MBind M := fun _ _ f m st =>
  match m st with
  | (Ok a, st') => f a st'
  | (Raise e, st') => (Raise e, st')
  end.

Definition raise {A} (e : exn) : M A := fun st => (Raise e, st).

Definition lift {A} (r : result A) : M A := fun st => (r, st).

Definition emit (ev : event) : M unit := fun st =>
  (Ok tt, {| st_fs := st_fs st; st_trace := st_trace st ++ [ev] |}).

(** [try: body except <class> as e: handler e]; what the body did before
    it raised stays done. *)
Definition try_except_M {A} (body : M A) (catches : exn -> bool)
    (handler : exn -> M A) : M A := fun st =>
  match body st with
  | (Ok a, st') => (Ok a, st')
  | (Raise e, st') => if catches e then handler e st' else (Raise e, st')
  end.

(** [except Exception] *)
Definition any_Exception (e : exn) : bool := true.

(** *** Files *)

(** [Path(p).exists()]: the test itself can raise; a file and a
    directory both exist. *)
Definition path_exists (w : world) (p : string) : M bool := fun st =>
  match w_exists_fault w p with
  | Some e => (Raise e, st)
  | None => (Ok (bool_decide (is_Some (st_fs st !! p)) || w_is_dir w p), st)
  end.

(** [Path(p).unlink()] on the file map, nothing refused. *)
Definition path_unlink (p : string) : M unit := fun st =>
  match st_fs st !! p with
  | Some _ =>
      (Ok tt, {| st_fs := delete p (st_fs st);
                 st_trace := st_trace st ++ [EvUnlink p] |})
  | None => (Raise FileNotFoundError, st)
  end.

(** [Path(p).unlink()] on a host that can refuse: a directory is not
    deleted this way, and the deletion of a file can be refused. *)
Definition path_unlink_on (w : world) (p : string) : M unit := fun st =>
  if w_is_dir w p then (Raise OSError, st)
  else match w_unlink_fault w p with
       | Some e => (Raise e, st)
       | None => path_unlink p st
       end.

(** [open(p, 'wb')]: the file is created, or emptied if it was there. *)
Definition open_wb (w : world) (p : string) : M unit := fun st =>
  match w_open_fault w p with
  | Some e => (Raise e, st)
  | None =>
      (Ok tt, {| st_fs := <[p := []]> (st_fs st);
                 st_trace := st_trace st ++ [EvOpen p] |})
  end.

(** [f.write(chunk)], the [n]-th one on the file opened at [p]. *)
Definition file_write (w : world) (n : nat) (p : string) (chunk : list byte)
    : M unit := fun st =>
  match w_write_fault w n with
  | Some e => (Raise e, st)
  | None =>
      (Ok tt, {| st_fs := <[p := default [] (st_fs st !! p) ++ chunk]> (st_fs st);
                 st_trace := st_trace st ++ [EvWrite p chunk] |})
  end.

(** ** The updater *)

Record HeliumUpdater : Type := {
  current_version : string;
  repo_owner : string;
  repo_name : string;
  github_api_url : string;
  user_agent : string
}.

Definition __init__ (current_version repo_owner repo_name : string)
    : HeliumUpdater :=
  {| current_version := current_version;
     repo_owner := repo_owner;
     repo_name := repo_name;
     github_api_url :=
       "https://api.github.com/repos/" +:+ repo_owner +:+ "/" +:+ repo_name;
     user_agent := "Helium-Browser-Updater/" +:+ current_version |}.

(** [x in (a, b)] on strings *)
Definition in_tuple (x : string) (t : list string) : bool :=
  existsb (String.eqb x) t.

Definition _get_architecture (w : world) : string :=
  let arch := PyStr.lower (w_machine w) in
  if in_tuple arch ["amd64"; "x86_64"] then "x64"
  else if in_tuple arch ["arm64"; "aarch64"] then "arm64"
  else "x64".

(** Every exception of the request is caught and answered by [None]. *)
Definition _make_request (self : HeliumUpdater) (w : world) (url : string)
    : pyval :=
  match w_get_json w url
          [("User-Agent", user_agent self);
           ("Accept", "application/vnd.github.v3+json")] 10 with
  | inr v => v
  | inl _ => PNone
  end.

(** [latest_release.get('tag_name', '').lstrip('v')] *)
Definition candidate_version (latest_release : pyval) : result string :=
  tag ← PyVal.get latest_release "tag_name" (PStr "");
  PyVal.lstrip tag "v".

(** Whether the lower-cased asset name carries the architecture marker. *)
Definition arch_marker (arch name : string) : bool :=
  PyStr.contains ("_" +:+ arch +:+ "-") name
  || PyStr.contains ("-" +:+ arch +:+ "-") name
  || PyStr.contains ("_" +:+ arch +:+ "_") name.

(** The loop over the assets, with the two variables it assigns. *)
Fixpoint scan_assets (arch : string) (assets : list pyval)
    (installer_asset zip_asset : pyval) : result (pyval * pyval) :=
  match assets with
  | [] => mret (installer_asset, zip_asset)
  | asset :: rest =>
      n ← PyVal.get asset "name" (PStr "");
      name ← PyVal.lower n;
      if arch_marker arch name then
        if PyStr.endswith "-installer.exe" name
        then scan_assets arch rest asset zip_asset
        else if PyStr.endswith "-windows.zip" name
        then scan_assets arch rest installer_asset asset
        else scan_assets arch rest installer_asset zip_asset
      else scan_assets arch rest installer_asset zip_asset
  end.

Definition check_for_updates (self : HeliumUpdater) (w : world)
    : result (option (gmap string pyval)) :=
  let latest_release :=
    _make_request self w (github_api_url self +:+ "/releases/latest") in
  if negb (PyVal.truthy latest_release) then mret None else
  latest_version ← candidate_version latest_release;
  if negb (PyVal.truthy (PStr latest_version)) then mret None else
  newer ← _is_newer_version latest_version (current_version self);
  if newer : bool then
    let arch := _get_architecture w in
    assets ← PyVal.get latest_release "assets" (PList []);
    assets ← PyVal.iter assets;
    found ← scan_assets arch assets PNone PNone;
    let '(installer_asset, zip_asset) := found in
    if PyVal.truthy (PyVal.or installer_asset zip_asset) then
      release_notes ← PyVal.get latest_release "body" (PStr "");
      release_url ← PyVal.get latest_release "html_url" PNone;
      published_at ← PyVal.get latest_release "published_at" PNone;
      mret (Some (<["version" := PStr latest_version]>
                 (<["release_notes" := release_notes]>
                 (<["release_url" := release_url]>
                 (<["published_at" := published_at]>
                 (<["installer" := installer_asset]>
                 (<["zip_package" := zip_asset]>
                 (<["architecture" := PStr arch]> ∅))))))))
    else mret None
  else mret None.

(** *** Download *)

(** A progress callback: it returns, or raises what it answers. *)
Definition callback : Type := Z -> Z -> option exn.

(** [progress_callback(downloaded, total_size)] *)
Definition call_progress (f : callback) (downloaded total_size : Z) : M unit :=
  emit (EvProgress downloaded total_size);;
  match f downloaded total_size with
  | Some e => raise e
  | None => mret tt
  end.

(** The [while True] loop; [reads] is what is left of the stream and [n]
    counts the writes. *)
Fixpoint read_loop (w : world) (local_path : string)
    (progress_callback : option callback) (total_size : Z)
    (reads : list (exn + list byte)) (downloaded : Z) (n : nat) : M unit :=
  match reads with
  | [] => mret tt
  | inl e :: _ => raise e
  | inr [] :: _ => mret tt
  | inr chunk :: rest =>
      file_write w n local_path chunk;;
      let downloaded := downloaded + Z.of_nat (length chunk) in
      match progress_callback with
      | Some f =>
          if 0 <? total_size then call_progress f downloaded total_size
          else mret tt
      | None => mret tt
      end;;
      read_loop w local_path progress_callback total_size rest downloaded (S n)
  end.

(** [int(response.headers.get('Content-Length', 0))] *)
Definition content_length (r : response) : result Z :=
  match resp_content_length r with
  | Some s => PyStr.int s
  | None => Ok 0
  end.

(** The body of the [try] block.  [Request] refuses what is not the
    text of a URL; a string it refuses is answered by [w_urlopen]. *)
Definition transfer (self : HeliumUpdater) (w : world) (download_url : pyval)
    (local_path : string) (progress_callback : option callback)
    : M (option string) :=
  url ← lift (match download_url with
              | PStr u => Ok u
              | _ => Raise ValueError
              end);
  let headers := [("User-Agent", user_agent self)] in
  emit (EvUrlopen url headers 30);;
  match w_urlopen w url headers 30 with
  | inl e => raise e
  | inr response =>
      total_size ← lift (content_length response);
      open_wb w local_path;;
      read_loop w local_path progress_callback total_size
        (resp_reads response) 0 0%nat;;
      mret (Some local_path)
  end.

(** The [except Exception as e] block; nothing guards its two calls on
    the path. *)
Definition download_failed (w : world) (local_path : string) (e : exn)
    : M (option string) :=
  emit (EvPrint "Error downloading update" e);;
  there ← path_exists w local_path;
  (if there : bool then path_unlink_on w local_path else mret tt);;
  mret None.

(** [update_info.get('installer') or update_info.get('zip_package')] *)
Definition select_asset (update_info : gmap string pyval) : pyval :=
  PyVal.or (default PNone (update_info !! "installer"))
           (default PNone (update_info !! "zip_package")).

(** [Path(temp_dir) / filename] *)
Definition local_path_of (w : world) (filename : pyval) : result string :=
  match filename with
  | PStr name => Ok (w_path_join w (w_tempdir w) name)
  | _ => Raise TypeError
  end.

Definition download_update (self : HeliumUpdater) (w : world)
    (update_info : gmap string pyval) (progress_callback : option callback)
    : M (option string) :=
  let asset := select_asset update_info in
  if negb (PyVal.truthy asset) then mret None else
  download_url ← lift (PyVal.get asset "browser_download_url" PNone);
  if negb (PyVal.truthy download_url) then mret None else
  filename ← lift (PyVal.get asset "name" PNone);
  local_path ← lift (local_path_of w filename);
  try_except_M
    (transfer self w download_url local_path progress_callback)
    any_Exception
    (download_failed w local_path).

(** *** Install and cleanup *)




(** ** Vocabulary of the specification *)

Module Spec.

(** A segment of a version: decimal digits, at least one. *)
Definition is_digit (c : ascii) : bool :=
  (48 <=? nat_of_ascii c)%nat && (nat_of_ascii c <=? 57)%nat.

Fixpoint all_digits (s : string) : bool :=
  match s with
  | EmptyString => true
  | String c s' => is_digit c && all_digits s'
  end.

Definition digit_string (s : string) : bool :=
  negb (String.eqb s "") && all_digits s.

(** The string has no occurrence of the character. *)
Fixpoint no_char (sep : ascii) (s : string) : bool :=
  match s with
  | EmptyString => true
  | String c s' => negb (Ascii.eqb c sep) && no_char sep s'
  end.

(** What is left of a version once the pre-release suffix is cut: the
    characters before the first hyphen. *)
Fixpoint before_hyphen (s : string) : string :=
  match s with
  | EmptyString => EmptyString
  | String c s' =>
      if Ascii.eqb c "-" then EmptyString else String c (before_hyphen s')
  end.

(** The segments of a version: what stands between the dots, the suffix
    cut. *)
Definition segments (v : string) : list string :=
  PyStr.split "." (before_hyphen v).

(** The number a digit string denotes. *)
Definition decimal_value (s : string) : Z :=
  fold_left (fun acc c => 10 * acc + (Z.of_nat (nat_of_ascii c) - 48))
            (list_ascii_of_string s) 0.

(** The segments written with dots between them. *)
Fixpoint join_dots (segs : list string) : string :=
  match segs with
  | [] => ""
  | [s] => s
  | s :: rest => s +:+ "." +:+ join_dots rest
  end.

(** [v] is a well-formed version with the segments [segs]: the segments
    joined by dots, then nothing or a pre-release suffix that a hyphen
    starts. *)
Definition well_formed (v : string) (segs : list string) : Prop :=
  segs <> [] /\ Forall (fun s => digit_string s = true) segs /\
  (v = join_dots segs \/ exists suffix, v = join_dots segs +:+ "-" +:+ suffix).

Definition ints_of (segs : list string) : list Z := decimal_value <$> segs.

(** Component [i] of a sequence once padded with zeros on the right. *)
Definition component (l : list Z) (i : nat) : Z := nth i l 0.

(** [a], padded, is strictly greater than [b], padded: the first
    component where they differ is greater in [a]. *)
Definition padded_gt (a b : list Z) : Prop :=
  exists i, (i < Nat.max (length a) (length b))%nat /\
    (forall j, (j < i)%nat -> component a j = component b j) /\
    component b i < component a i.

(** The tag with one leading [v] taken away, if it has one. *)
Definition strip_leading_v (tag : string) : string :=
  match tag with
  | String c rest => if Ascii.eqb c "v" then rest else tag
  | EmptyString => tag
  end.

(** [n] times the letter [v]. *)
Fixpoint v_run (n : nat) : string :=
  match n with
  | O => EmptyString
  | S n' => String "v" (v_run n')
  end.

Definition is_substring (needle hay : string) : Prop :=
  exists pre post, hay = pre +:+ needle +:+ post.

Definition has_suffix (suffix s : string) : Prop :=
  exists pre, s = pre +:+ suffix.

(** The name carries the architecture tag in one of the three forms. *)
Definition has_arch_marker (arch name : string) : Prop :=
  is_substring ("_" +:+ arch +:+ "-") name \/
  is_substring ("-" +:+ arch +:+ "-") name \/
  is_substring ("_" +:+ arch +:+ "_") name.

(** An asset as the release API lists it: an object whose name, when it
    has one, is a string. *)
Definition asset_shaped (a : pyval) : Prop :=
  exists d, a = PDict d /\
    (d !! "name" = None \/ exists n, d !! "name" = Some (PStr n)).

(** An asset for this architecture that is an installer or an archive. *)
Definition usable_asset (arch : string) (a : pyval) : Prop :=
  exists d n, a = PDict d /\ d !! "name" = Some (PStr n) /\
    has_arch_marker arch (PyStr.lower n) /\
    (has_suffix "-installer.exe" (PyStr.lower n) \/
     has_suffix "-windows.zip" (PyStr.lower n)).

(** The calls of the progress callback in a trace, and the blocks
    written. *)
Definition progress_calls (tr : list event) : list (Z * Z) :=
  omap (fun ev => match ev with
                  | EvProgress d t => Some (d, t)
                  | _ => None
                  end) tr.

Definition written_chunks (tr : list event) : list (list byte) :=
  omap (fun ev => match ev with
                  | EvWrite _ c => Some c
                  | _ => None
                  end) tr.

(** The events of a trace that are a write or a progress call. *)
Definition io_events (tr : list event) : list event :=
  List.filter (fun ev => match ev with
                         | EvWrite _ _ | EvProgress _ _ => true
                         | _ => false
                         end) tr.

(** Bytes so far after each block, starting from [from]. *)
Fixpoint running_totals (from : Z) (chunks : list (list byte)) : list Z :=
  match chunks with
  | [] => []
  | c :: rest =>
      let t := from + Z.of_nat (length c) in t :: running_totals t rest
  end.

(** A write of each block, each followed by one progress call. *)
Fixpoint write_then_progress (path : string) (total : Z) (from : Z)
    (chunks : list (list byte)) : list event :=
  match chunks with
  | [] => []
  | c :: rest =>
      let t := from + Z.of_nat (length c) in
      EvWrite path c :: EvProgress t total ::
      write_then_progress path total t rest
  end.

(** The blocks a stream delivers before its end: up to the first empty
    block, the first exception or the end of the list. *)
Fixpoint stream_chunks (reads : list (exn + list byte)) : list (list byte) :=
  match reads with
  | inr (b :: c) :: rest => (b :: c) :: stream_chunks rest
  | _ => []
  end.

(** Bytes in all the blocks. *)
Definition total_length (chunks : list (list byte)) : Z :=
  fold_right (fun c acc => Z.of_nat (length c) + acc) 0 chunks.

Fixpoint strictly_increasing (l : list Z) : Prop :=
  match l with
  | x :: (y :: _) as rest => x < y /\ strictly_increasing rest
  | _ => True
  end.

End Spec.

(** ** Worlds and data for the examples *)

Module Examples.

(** A host with no network and no installer to run. *)
Definition offline (machine : string) : world :=
  {| w_machine := machine;
     w_get_json := fun _ _ _ => inl URLError;
     w_urlopen := fun _ _ _ => inl URLError;
     w_tempdir := "/tmp";
     w_path_join := fun dir name => dir +:+ "/" +:+ name;
     w_open_fault := fun _ => None;
     w_write_fault := fun _ => None;
     w_child := fun _ => SpawnFails FileNotFoundError;
     w_exists_fault := fun _ => None;
     w_is_dir := fun _ => false;
     w_unlink_fault := fun _ => None |}.

(** The same host, the release API answering [release]. *)
Definition serving (w : world) (release : pyval) : world :=
  {| w_machine := w_machine w;
     w_get_json := fun _ _ _ => inr release;
     w_urlopen := w_urlopen w;
     w_tempdir := w_tempdir w;
     w_path_join := w_path_join w;
     w_open_fault := w_open_fault w;
     w_write_fault := w_write_fault w;
     w_child := w_child w;
     w_exists_fault := w_exists_fault w;
     w_is_dir := w_is_dir w;
     w_unlink_fault := w_unlink_fault w |}.

(** The same host, every download answered by [r]. *)
Definition streaming (w : world) (r : response) : world :=
  {| w_machine := w_machine w;
     w_get_json := w_get_json w;
     w_urlopen := fun _ _ _ => inr r;
     w_tempdir := w_tempdir w;
     w_path_join := w_path_join w;
     w_open_fault := w_open_fault w;
     w_write_fault := w_write_fault w;
     w_child := w_child w;
     w_exists_fault := w_exists_fault w;
     w_is_dir := w_is_dir w;
     w_unlink_fault := w_unlink_fault w |}.


Definition asset (name url : string) (size : Z) : gmap string pyval :=
  <["name" := PStr name]>
  (<["browser_download_url" := PStr url]>
  (<["size" := PInt size]> ∅)).

(** The release of [test_mock_update_flow]. *)
Definition mock_installer : gmap string pyval :=
  asset "helium_1.2.3.4_x64-installer.exe"
    "https://github.com/imputnet/helium-windows/releases/download/v1.2.3.4/helium_1.2.3.4_x64-installer.exe"
    1024000.

Definition mock_zip : gmap string pyval :=
  asset "helium_1.2.3.4_x64-windows.zip"
    "https://github.com/imputnet/helium-windows/releases/download/v1.2.3.4/helium_1.2.3.4_x64-windows.zip"
    2048000.

Definition mock_release : gmap string pyval :=
  <["tag_name" := PStr "1.2.3.4"]>
  (<["html_url" :=
       PStr "https://github.com/imputnet/helium-windows/releases/tag/v1.2.3.4"]>
  (<["body" := PStr "Test release notes"]>
  (<["published_at" := PStr "2024-01-01T00:00:00Z"]>
  (<["assets" := PList [PDict mock_installer; PDict mock_zip]]> ∅)))).

Definition updater : HeliumUpdater :=
  __init__ "1.0.0.0" "imputnet" "helium-windows".

(** What the check of [test_mock_update_flow] is to return. *)
Definition mock_update_info : gmap string pyval :=
  <["version" := PStr "1.2.3.4"]>
  (<["release_notes" := PStr "Test release notes"]>
  (<["release_url" :=
       PStr "https://github.com/imputnet/helium-windows/releases/tag/v1.2.3.4"]>
  (<["published_at" := PStr "2024-01-01T00:00:00Z"]>
  (<["installer" := PDict mock_installer]>
  (<["zip_package" := PDict mock_zip]>
  (<["architecture" := PStr "x64"]> ∅)))))).

Definition empty_state : state := {| st_fs := ∅; st_trace := [] |}.

Definition bytes (n : nat) : list byte := replicate n x00.

(** A response of ten bytes in blocks of four, four and two. *)
Definition ten_bytes : response :=
  {| resp_content_length := Some "10";
     resp_reads := [inr (bytes 4); inr (bytes 4); inr (bytes 2)] |}.

(** A response that breaks after its first block. *)
Definition broken : response :=
  {| resp_content_length := Some "10";
     resp_reads := [inr (bytes 4); inl URLError] |}.

(** An update with an installer only, and one whose installer has no
    download URL next to a complete archive. *)
Definition installer_only : gmap string pyval :=
  <["installer" := PDict mock_installer]> (<["zip_package" := PNone]> ∅).

Definition installer_without_url : gmap string pyval :=
  <["installer" := PDict (<["name" := PStr "helium_x64-installer.exe"]> ∅)]>
  (<["zip_package" := PDict mock_zip]> ∅).

Definition installer_path : string :=
  "/tmp/helium_1.2.3.4_x64-installer.exe".

Definition installer_url : string :=
  "https://github.com/imputnet/helium-windows/releases/download/v1.2.3.4/helium_1.2.3.4_x64-installer.exe".

(** The state after the download of the ten bytes. *)
Definition complete_state : state :=
  {| st_fs := <[installer_path := bytes 10]> ∅;
     st_trace :=
       [EvUrlopen installer_url
          [("User-Agent", "Helium-Browser-Updater/1.0.0.0")] 30;
        EvOpen installer_path;
        EvWrite installer_path (bytes 4); EvProgress 4 10;
        EvWrite installer_path (bytes 4); EvProgress 8 10;
        EvWrite installer_path (bytes 2); EvProgress 10 10] |}.

(** A callback that never raises. *)
Definition silent : callback := fun _ _ => None.

End Examples.

(** ** The limit of [int] *)

Module Limits.

(** Every segment has no more digits than [int] accepts. *)
Definition within_limit (segs : list string) : Prop :=
  Forall (fun s => (String.length s <= PyStr.int_max_str_digits)%nat) segs.

(** [n] times the digit 1. *)
Fixpoint ones (n : nat) : string :=
  match n with
  | O => EmptyString
  | S n' => String "1" (ones n')
  end.

(** A version of one segment, one digit over the limit. *)
Definition long_version : string := ones (S PyStr.int_max_str_digits).

End Limits.

(** ** Vocabulary for the further properties *)

Module Select.

(** An asset whose name, lower-cased, carries the architecture marker and
    ends in [suffix]. *)
Definition named_for (arch suffix : string) (a : pyval) : Prop :=
  exists d n, a = PDict d /\ d !! "name" = Some (PStr n) /\
    Spec.has_arch_marker arch (PyStr.lower n) /\
    Spec.has_suffix suffix (PyStr.lower n).

Definition installer_for (arch : string) (a : pyval) : Prop :=
  named_for arch "-installer.exe" a.

Definition archive_for (arch : string) (a : pyval) : Prop :=
  named_for arch "-windows.zip" a.

(** The keys of the dictionary [check_for_updates] returns. *)
Definition update_keys : gset string :=
  {[ "version"; "release_notes"; "release_url"; "published_at";
     "installer"; "zip_package"; "architecture" ]}.

(** A release as the API documents it, as far as the check reads it: the
    tag, when there is one, is a string, and the assets, when there are
    any, are a list of well-shaped assets. *)
Definition release_shaped (release : gmap string pyval) : Prop :=
  (release !! "tag_name" = None \/
   exists tag, release !! "tag_name" = Some (PStr tag)) /\
  (release !! "assets" = None \/
   exists assets, release !! "assets" = Some (PList assets) /\
     Forall Spec.asset_shaped assets).

(** The file a download writes to, when the selected asset names one. *)
Definition target_path (w : world) (update_info : gmap string pyval)
    : option string :=
  match select_asset update_info with
  | PDict d =>
      match d !! "name" with
      | Some (PStr name) => Some (w_path_join w (w_tempdir w) name)
      | _ => None
      end
  | _ => None
  end.

(** The stream reaches its end (the end of the list or an empty block)
    before any exception. *)
Fixpoint stream_intact (reads : list (exn + list byte)) : bool :=
  match reads with
  | [] => true
  | inl _ :: _ => false
  | inr [] :: _ => true
  | inr (_ :: _) :: rest => stream_intact rest
  end.

(** The host lets the handler of the download do its work on the path:
    the existence test does not raise, the path is no directory and the
    deletion is not refused. *)
Definition handler_safe (w : world) (p : string) : Prop :=
  w_exists_fault w p = None /\ w_is_dir w p = false /\
  w_unlink_fault w p = None.

(** The callback, if there is one, never raises. *)
Definition callback_quiet (cb : option callback) : Prop :=
  match cb with
  | Some f => forall downloaded total, f downloaded total = None
  | None => True
  end.

End Select.

(** ** More data for examples *)

Module MoreExamples.

Definition named (name : string) : pyval :=
  PDict (<["name" := PStr name]> ∅).

(** A release that lists two installers for x64, the archive between
    them. *)
Definition two_installers : gmap string pyval :=
  <["tag_name" := PStr "v2.0"]>
  (<["assets" := PList [named "old_x64-installer.exe";
                        named "h_x64-windows.zip";
                        named "new_X64-Installer.EXE"]]> ∅).

(** A release without a tag and without assets. *)
Definition bare_release : gmap string pyval :=
  <["body" := PStr "notes"]> ∅.

(** An update whose installer has a download URL and no name. *)
Definition nameless_installer : gmap string pyval :=
  <["installer" := PDict (<["browser_download_url" := PStr "http://h/i"]> ∅)]>
  ∅.

(** An update with a small installer. *)
Definition small_update : gmap string pyval :=
  <["installer" :=
      PDict (<["name" := PStr "i.exe"]>
             (<["browser_download_url" := PStr "http://h/i"]> ∅))]> ∅.

(** A state with a file left by an earlier download, and another file. *)
Definition stale_state : state :=
  {| st_fs := <["/tmp/i.exe" := Examples.bytes 3]>
              (<["/tmp/keep" := Examples.bytes 1]> ∅);
     st_trace := [] |}.

(** A response without a [Content-Length] header. *)
Definition unsized : response :=
  {| resp_content_length := None;
     resp_reads := [inr (Examples.bytes 2); inr (Examples.bytes 1)] |}.

End MoreExamples.

(** ** Hosts and data that bring out the failures *)

Module Faults.

Fixpoint xs (n : nat) : string :=
  match n with
  | O => EmptyString
  | S n' => String "x" (xs n')
  end.

(** An asset name of more than 255 characters. *)
Definition long_name : string :=
  "helium_" +:+ xs 300 +:+ "_x64-installer.exe".

Definition long_name_update : gmap string pyval :=
  <["installer" :=
      PDict (<["name" := PStr long_name]>
             (<["browser_download_url" := PStr "http://h/i"]> ∅))]> ∅.

Definition name_too_long (p : string) : option exn :=
  if (255 <? String.length p)%nat then Some OSError else None.

(** A host that answers the download and on which a path of more than
    255 characters can be neither opened nor tested. *)
Definition name_max_host : world :=
  {| w_machine := "AMD64";
     w_get_json := fun _ _ _ => inl URLError;
     w_urlopen := fun _ _ _ => inr Examples.ten_bytes;
     w_tempdir := "/tmp";
     w_path_join := fun dir name => dir +:+ "/" +:+ name;
     w_open_fault := name_too_long;
     w_write_fault := fun _ => None;
     w_child := fun _ => SpawnFails FileNotFoundError;
     w_exists_fault := name_too_long;
     w_is_dir := fun _ => false;
     w_unlink_fault := fun _ => None |}.

(** An asset with an empty name: its target is the temporary directory
    itself. *)
Definition empty_name_update : gmap string pyval :=
  <["installer" :=
      PDict (<["name" := PStr ""]>
             (<["browser_download_url" := PStr "http://h/i"]> ∅))]> ∅.

(** A host that answers the download and whose temporary directory is a
    directory: it can be neither opened as a file nor deleted as one. *)
Definition tempdir_host : world :=
  {| w_machine := "AMD64";
     w_get_json := fun _ _ _ => inl URLError;
     w_urlopen := fun _ _ _ => inr Examples.ten_bytes;
     w_tempdir := "/tmp";
     w_path_join := fun dir name =>
       if String.eqb name "" then dir else dir +:+ "/" +:+ name;
     w_open_fault := fun p =>
       if String.eqb p "/tmp" then Some OSError else None;
     w_write_fault := fun _ => None;
     w_child := fun _ => SpawnFails FileNotFoundError;
     w_exists_fault := fun _ => None;
     w_is_dir := fun p => String.eqb p "/tmp";
     w_unlink_fault := fun _ => None |}.

(** A host on which the download breaks after its first block and the
    file written cannot be deleted (another process holds it). *)
Definition locking_host : world :=
  {| w_machine := "AMD64";
     w_get_json := fun _ _ _ => inl URLError;
     w_urlopen := fun _ _ _ => inr Examples.broken;
     w_tempdir := "/tmp";
     w_path_join := fun dir name => dir +:+ "/" +:+ name;
     w_open_fault := fun _ => None;
     w_write_fault := fun _ => None;
     w_child := fun _ => SpawnFails FileNotFoundError;
     w_exists_fault := fun _ => None;
     w_is_dir := fun _ => false;
     w_unlink_fault := fun _ => Some OSError |}.

(** A response that declares ten bytes and delivers four. *)
Definition truncated : response :=
  {| resp_content_length := Some "10";
     resp_reads := [inr (Examples.bytes 4)] |}.

Definition truncated_run : result (option string) * state :=
  download_update Examples.updater
    (Examples.streaming (Examples.offline "AMD64") truncated)
    MoreExamples.small_update (Some Examples.silent) Examples.empty_state.


End Faults.

(** * Properties *)

(** ** Strings *)

Section StringFacts.

Lemma digit_char_facts (c : ascii) :
  Spec.is_digit c = true ->
  PyStr.digit_value c = Some (Z.of_nat (nat_of_ascii c) - 48) /\
  PyStr.is_space c = false /\
  Ascii.eqb c "." = false /\ Ascii.eqb c "-" = false /\
  Ascii.eqb c "+" = false.
Proof.
  destruct c as [[] [] [] [] [] [] [] []]; vm_compute; intros H;
    try discriminate H; repeat split.
Qed.

Lemma split_cons (sep : ascii) (s : string) :
  exists x xs, PyStr.split sep s = x :: xs.
Proof.
  induction s as [|c s IH]; simpl; [eauto|].
  destruct (Ascii.eqb c sep); [eauto|].
  destruct IH as (x & xs & ->). eauto.
Qed.

Lemma split_no_char (sep : ascii) (s : string) :
  Spec.no_char sep s = true -> PyStr.split sep s = [s].
Proof.
  induction s as [|c s IH]; simpl; [done|].
  intros [Hc Hs]%andb_prop. apply negb_true_iff in Hc.
  rewrite Hc, (IH Hs). done.
Qed.

Lemma split_app_sep (sep : ascii) (p rest : string) :
  Spec.no_char sep p = true ->
  PyStr.split sep (p +:+ String sep rest) = p :: PyStr.split sep rest.
Proof.
  induction p as [|c p IH]; simpl.
  - intros _. by rewrite Ascii.eqb_refl.
  - intros [Hc Hp]%andb_prop. apply negb_true_iff in Hc.
    rewrite Hc, (IH Hp). done.
Qed.

Lemma no_char_app (sep : ascii) (a b : string) :
  Spec.no_char sep (a +:+ b) = Spec.no_char sep a && Spec.no_char sep b.
Proof.
  induction a as [|c a IH]; simpl; [done|].
  rewrite IH. by rewrite andb_assoc.
Qed.

Lemma all_digits_no_char (sep : ascii) (s : string) :
  Spec.is_digit sep = false -> Spec.all_digits s = true ->
  Spec.no_char sep s = true.
Proof.
  intros Hsep. induction s as [|c s IH]; simpl; [done|].
  intros [Hc Hs]%andb_prop. rewrite (IH Hs), andb_true_r.
  apply negb_true_iff. destruct (Ascii.eqb_spec c sep); [congruence|done].
Qed.

(** [startswith], [contains] and [endswith] against their meaning. *)
Lemma startswith_spec (p s : string) :
  PyStr.startswith p s = true <-> exists post, s = p +:+ post.
Proof.
  revert s. induction p as [|a p IH]; intros s; simpl.
  - split; [eauto|done].
  - destruct s as [|b s].
    + split; [done|]. intros [post H]. discriminate H.
    + rewrite andb_true_iff, IH. split.
      * intros [->%Ascii.eqb_eq [post ->]]. eauto.
      * intros [post H]. injection H as -> ->. rewrite Ascii.eqb_refl. eauto.
Qed.

Lemma contains_spec (needle hay : string) :
  PyStr.contains needle hay = true <-> Spec.is_substring needle hay.
Proof.
  unfold Spec.is_substring. induction hay as [|c hay IH]; simpl.
  - rewrite orb_false_r, startswith_spec. split.
    + intros [post H]. exists "", post. done.
    + intros (pre & post & H). destruct pre; [eauto|discriminate H].
  - rewrite orb_true_iff, startswith_spec, IH. split.
    + intros [[post H]|(pre & post & ->)].
      * exists "", post. done.
      * exists (String c pre), post. done.
    + intros (pre & post & H). destruct pre as [|d pre].
      * left. eauto.
      * right. injection H as _ ->. eauto.
Qed.

Lemma endswith_spec (suffix s : string) :
  PyStr.endswith suffix s = true <-> Spec.has_suffix suffix s.
Proof.
  unfold Spec.has_suffix. induction s as [|c s IH]; simpl.
  - rewrite orb_false_r, String.eqb_eq. split.
    + intros ->. by exists "".
    + intros [pre H]. destruct pre; [done|discriminate H].
  - rewrite orb_true_iff, String.eqb_eq, IH. split.
    + intros [->|[pre ->]]; [by exists ""|by exists (String c pre)].
    + intros [pre H]. destruct pre as [|d pre].
      * by left.
      * right. injection H as _ ->. eauto.
Qed.

End StringFacts.

(** ** Version comparison *)

Section VersionFacts.

Lemma scan_all_digits (s : string) (acc : Z) :
  Spec.all_digits s = true ->
  PyStr.scan_digits s acc false =
    Some (fold_left (fun a c => 10 * a + (Z.of_nat (nat_of_ascii c) - 48))
            (list_ascii_of_string s) acc, "").
Proof.
  revert acc. induction s as [|c s IH]; intros acc; simpl; [done|].
  intros [Hc Hs]%andb_prop.
  destruct (digit_char_facts c Hc) as (-> & _). by rewrite IH.
Qed.

Lemma count_all_digits (s : string) :
  Spec.all_digits s = true -> PyStr.count_digits s = String.length s.
Proof.
  induction s as [|c s IH]; cbn [Spec.all_digits PyStr.count_digits
                                   String.length]; [done|].
  intros [Hc Hs]%andb_prop.
  destruct (digit_char_facts c Hc) as (-> & _). by rewrite IH.
Qed.

Lemma int_digit_string (s : string) :
  Spec.digit_string s = true ->
  (String.length s <= PyStr.int_max_str_digits)%nat ->
  PyStr.int s = Ok (Spec.decimal_value s).
Proof.
  unfold Spec.digit_string. intros [Hne Hd]%andb_prop Hlen.
  destruct s as [|c s]; [done|].
  pose proof Hd as Hd'. cbn [Spec.all_digits] in Hd'.
  apply andb_prop in Hd' as [Hc _].
  destruct (digit_char_facts c Hc) as (Hv & Hsp & _ & Hm & Hp).
  unfold PyStr.int. cbn [PyStr.skip_spaces]. rewrite Hsp.
  unfold PyStr.split_sign. rewrite Hp, Hm, Hv.
  rewrite (scan_all_digits _ _ Hd), (count_all_digits _ Hd).
  apply Nat.ltb_ge in Hlen. rewrite Hlen. done.
Qed.

(** Over the limit, [int] refuses the digits. *)
Lemma int_over_limit (s : string) :
  Spec.digit_string s = true ->
  (PyStr.int_max_str_digits < String.length s)%nat ->
  PyStr.int s = Raise ValueError.
Proof.
  unfold Spec.digit_string. intros [Hne Hd]%andb_prop Hlen.
  destruct s as [|c s]; [done|].
  pose proof Hd as Hd'. cbn [Spec.all_digits] in Hd'.
  apply andb_prop in Hd' as [Hc _].
  destruct (digit_char_facts c Hc) as (Hv & Hsp & _ & Hm & Hp).
  unfold PyStr.int. cbn [PyStr.skip_spaces]. rewrite Hsp.
  unfold PyStr.split_sign. rewrite Hp, Hm, Hv.
  rewrite (scan_all_digits _ _ Hd), (count_all_digits _ Hd).
  apply Nat.ltb_lt in Hlen. rewrite Hlen. done.
Qed.

Lemma mapM_int_digit_strings (segs : list string) :
  Forall (fun s => Spec.digit_string s = true) segs ->
  Limits.within_limit segs ->
  mapM PyStr.int segs = Ok (Spec.ints_of segs).
Proof.
  induction 1 as [|s segs Hs _ IH]; [done|].
  intros [Hlen Hrest]%Forall_cons.
  cbn [mapM]. rewrite (int_digit_string _ Hs Hlen). cbn.
  rewrite (IH Hrest). done.
Qed.

Lemma digit_string_no_char (sep : ascii) (s : string) :
  Spec.is_digit sep = false -> Spec.digit_string s = true ->
  Spec.no_char sep s = true.
Proof.
  intros Hsep [_ Hd]%andb_prop. by apply all_digits_no_char.
Qed.

Lemma split_join_dots (segs : list string) :
  segs <> [] -> Forall (fun s => Spec.digit_string s = true) segs ->
  PyStr.split "." (Spec.join_dots segs) = segs.
Proof.
  intros Hne H. induction H as [|s segs Hs Hall IH]; [done|].
  destruct segs as [|s' segs].
  - simpl. apply split_no_char. by apply digit_string_no_char.
  - change (Spec.join_dots (s :: s' :: segs))
      with (s +:+ String "." (Spec.join_dots (s' :: segs))).
    rewrite split_app_sep by (by apply digit_string_no_char).
    rewrite IH; done.
Qed.

Lemma join_dots_no_hyphen (segs : list string) :
  Forall (fun s => Spec.digit_string s = true) segs ->
  Spec.no_char "-" (Spec.join_dots segs) = true.
Proof.
  induction 1 as [|s segs Hs Hall IH]; [done|].
  destruct segs as [|s' segs].
  - simpl. by apply digit_string_no_char.
  - change (Spec.join_dots (s :: s' :: segs))
      with (s +:+ String "." (Spec.join_dots (s' :: segs))).
    rewrite no_char_app. apply andb_true_intro. split.
    + by apply digit_string_no_char.
    + exact IH.
Qed.

Lemma split_hyphen_head (v : string) :
  PyStr.split "-" v !! 0%nat = Some (Spec.before_hyphen v).
Proof.
  induction v as [|c v IH]; simpl; [done|].
  destruct (Ascii.eqb c "-"); [done|].
  destruct (PyStr.split "-" v) as [|x xs]; [done|].
  simpl in *. congruence.
Qed.

Lemma parse_version_segments (v : string) :
  parse_version v = mapM PyStr.int (Spec.segments v).
Proof.
  unfold parse_version, list_index. by rewrite split_hyphen_head.
Qed.

Lemma before_hyphen_id (p : string) :
  Spec.no_char "-" p = true -> Spec.before_hyphen p = p.
Proof.
  induction p as [|c p IH]; simpl; [done|].
  intros [Hc Hp]%andb_prop. apply negb_true_iff in Hc.
  rewrite Hc, (IH Hp). done.
Qed.

Lemma before_hyphen_suffix (p suffix : string) :
  Spec.no_char "-" p = true ->
  Spec.before_hyphen (p +:+ "-" +:+ suffix) = p.
Proof.
  induction p as [|c p IH]; simpl; [done|].
  intros [Hc Hp]%andb_prop. apply negb_true_iff in Hc.
  rewrite Hc, (IH Hp). done.
Qed.

Lemma well_formed_segments (v : string) (segs : list string) :
  Spec.well_formed v segs -> Spec.segments v = segs.
Proof.
  intros (Hne & Hall & Hv). unfold Spec.segments.
  pose proof (join_dots_no_hyphen segs Hall) as Hno.
  destruct Hv as [->|[suffix ->]].
  - rewrite before_hyphen_id by done. by apply split_join_dots.
  - rewrite before_hyphen_suffix by done. by apply split_join_dots.
Qed.

Lemma parse_version_well_formed (v : string) (segs : list string) :
  Spec.well_formed v segs -> Limits.within_limit segs ->
  parse_version v = Ok (Spec.ints_of segs).
Proof.
  intros H Hlimit.
  rewrite parse_version_segments, (well_formed_segments v segs H).
  apply mapM_int_digit_strings; [apply H|exact Hlimit].
Qed.

(** The exceptions of [int] and of [parse_version] are [ValueError]s. *)
Lemma int_raises_ValueError (s : string) (e : exn) :
  PyStr.int s = Raise e -> e = ValueError.
Proof.
  unfold PyStr.int. destruct (PyStr.split_sign _) as [neg body].
  destruct body as [|c body]; [congruence|].
  destruct (PyStr.digit_value c); [|congruence].
  destruct (PyStr.scan_digits _ _ _) as [[v rest]|]; [|congruence].
  destruct (_ <? _)%nat; [congruence|].
  destruct (PyStr.skip_spaces rest); congruence.
Qed.

Lemma mapM_int_raises (l : list string) (e : exn) :
  mapM PyStr.int l = Raise e -> e = ValueError.
Proof.
  induction l as [|s l IH]; cbn [mapM]; [done|].
  destruct (PyStr.int s) eqn:Hs; cbn.
  - destruct (mapM PyStr.int l); cbn; [done|]. intros [= <-]. by apply IH.
  - intros [= <-]. by apply int_raises_ValueError in Hs.
Qed.

Lemma mapM_int_bad_segment (l : list string) (seg : string) :
  In seg l -> (forall z, PyStr.int seg <> Ok z) ->
  mapM PyStr.int l = Raise ValueError.
Proof.
  intros Hin Hbad. induction l as [|s l IH]; [done|].
  cbn [mapM]. destruct Hin as [->|Hin].
  - destruct (PyStr.int seg) as [z|e] eqn:Hs; [by destruct (Hbad z)|].
    apply int_raises_ValueError in Hs as ->. done.
  - destruct (PyStr.int s) as [z|e] eqn:Hs; cbn.
    + by rewrite (IH Hin).
    + apply int_raises_ValueError in Hs as ->. done.
Qed.

Lemma is_newer_total (a b : string) :
  exists r, _is_newer_version a b = Ok r.
Proof.
  unfold _is_newer_version. rewrite !parse_version_segments.
  destruct (mapM PyStr.int (Spec.segments a)) as [la|e] eqn:Ha; cbn.
  - destruct (mapM PyStr.int (Spec.segments b)) as [lb|e] eqn:Hb; cbn.
    + eauto.
    + apply mapM_int_raises in Hb as ->. cbn. eauto.
  - apply mapM_int_raises in Ha as ->. cbn. eauto.
Qed.

(** Python's comparison of two lists of one length, position by
    position. *)
Lemma list_gt_same_length (a b : list Z) :
  length a = length b ->
  list_gt a b = true <->
  exists i, (i < length a)%nat /\
    (forall j, (j < i)%nat -> nth j a 0 = nth j b 0) /\
    nth i b 0 < nth i a 0.
Proof.
  revert b. induction a as [|x a IH]; intros [|y b] Hlen;
    simpl in Hlen; try discriminate.
  - simpl. split; [done|]. intros (i & Hi & _). lia.
  - injection Hlen as Hlen. cbn [list_gt].
    destruct (Z.eqb_spec x y) as [->|Hxy].
    + rewrite (IH b Hlen). split.
      * intros (i & Hi & Hpre & Hgt). exists (S i). cbn [length nth].
        split; [lia|]. split; [|done].
        intros [|j] Hj; [done|]. apply Hpre. lia.
      * intros ([|i] & Hi & Hpre & Hgt); cbn [length nth] in *; [lia|].
        exists i. split; [lia|]. split; [|done].
        intros j Hj. apply (Hpre (S j)). lia.
    + rewrite Z.ltb_lt. split.
      * intros Hlt. exists 0%nat. cbn [length nth].
        split; [lia|]. split; [|done]. intros j Hj. lia.
      * intros ([|i] & Hi & Hpre & Hgt); cbn [nth] in *; [done|].
        specialize (Hpre 0%nat ltac:(lia)). cbn in Hpre. done.
Qed.

Lemma nth_extend_zeros (v : list Z) (n i : nat) :
  nth i (extend_zeros v n) 0 = nth i v 0.
Proof.
  unfold extend_zeros. destruct (Nat.lt_ge_cases i (length v)) as [Hi|Hi].
  - by rewrite app_nth1.
  - rewrite app_nth2 by done. rewrite (nth_overflow v) by done.
    generalize (i - length v)%nat as k. generalize (n - length v)%nat as m.
    induction m as [|m IH]; intros [|k]; simpl; auto.
Qed.

Lemma length_extend_zeros (v : list Z) (n : nat) :
  (length v <= n)%nat -> length (extend_zeros v n) = n.
Proof.
  intros H. unfold extend_zeros.
  rewrite length_app, length_replicate. lia.
Qed.

Lemma list_gt_padded (a b : list Z) :
  let n := Nat.max (length a) (length b) in
  list_gt (extend_zeros a n) (extend_zeros b n) = true <-> Spec.padded_gt a b.
Proof.
  intros n. rewrite list_gt_same_length
    by (rewrite !length_extend_zeros; lia).
  rewrite length_extend_zeros by lia.
  unfold Spec.padded_gt, Spec.component. fold n.
  split; intros (i & Hi & Hpre & Hgt); exists i.
  - rewrite !nth_extend_zeros in Hgt. split; [done|]. split; [|done].
    intros j Hj. specialize (Hpre j Hj). by rewrite !nth_extend_zeros in Hpre.
  - rewrite !nth_extend_zeros. split; [done|]. split; [|done].
    intros j Hj. rewrite !nth_extend_zeros. by apply Hpre.
Qed.

End VersionFacts.

(** The limit of [int] shows in the comparison: 4301 times the digit 1
    is a well-formed version, greater than 0 as a number, and [int]
    refuses it, so that the comparison returns [False]. *)
Lemma is_newer_version_over_limit :
  Spec.well_formed Limits.long_version [Limits.long_version] /\
  Spec.well_formed "0" ["0"] /\
  Spec.padded_gt (Spec.ints_of [Limits.long_version]) (Spec.ints_of ["0"]) /\
  _is_newer_version Limits.long_version "0" = Ok false.
Proof.
  split; [|split; [|split]].
  - split; [done|]. split; [|by left].
    constructor; [vm_compute; reflexivity|constructor].
  - split; [done|]. split; [by repeat constructor|by left].
  - exists 0%nat. split; [cbn; lia|]. split; [intros j Hj; lia|].
    apply Z.ltb_lt. vm_compute. reflexivity.
  - vm_compute. reflexivity.
Qed.

(** C1.  For version strings that are well formed (digit
    segments joined by dots, then possibly a suffix that a hyphen starts)
    and whose segments have no more than 4300 digits each,
    [_is_newer_version a b] returns [True] exactly when the integers of
    [a], padded with zeros on the right to the common length, are strictly
    greater than those of [b] in the lexicographic order; a well-formed
    version with a longer segment is newer than nothing and nothing is
    newer than it; the four comparisons the specification lists come out
    as it says. *)
Theorem is_newer_version_lexicographic :
  (forall (a b : string) (sa sb : list string),
     Spec.well_formed a sa -> Spec.well_formed b sb ->
     Limits.within_limit sa -> Limits.within_limit sb ->
     exists r, _is_newer_version a b = Ok r /\
       (r = true <-> Spec.padded_gt (Spec.ints_of sa) (Spec.ints_of sb))) /\
  (forall (a b : string) (sa : list string),
     Spec.well_formed a sa -> ~ Limits.within_limit sa ->
     _is_newer_version a b = Ok false /\ _is_newer_version b a = Ok false) /\
  _is_newer_version "1.0.0.1" "1.0.0.0" = Ok true /\
  _is_newer_version "1.0.0.0" "1.0.0.0" = Ok false /\
  _is_newer_version "2.0.0.0" "1.9.9.9" = Ok true /\
  _is_newer_version "1.2.0-beta.1" "1.1.9" = Ok true.
Proof.
  split; [|split; [|repeat split; reflexivity]].
  - intros a b sa sb Ha Hb Hla Hlb. unfold _is_newer_version.
    rewrite (parse_version_well_formed a sa Ha Hla).
    rewrite (parse_version_well_formed b sb Hb Hlb).
    cbn [mbind result_bind mret result_ret try_except].
    eexists. split; [reflexivity|]. apply list_gt_padded.
  - intros a b sa Ha Hover.
    assert (Hparse : mapM PyStr.int (Spec.segments a) = Raise ValueError).
    { rewrite (well_formed_segments a sa Ha).
      destruct Ha as (_ & Hdigits & _).
      apply not_Forall_Exists in Hover; [|intros s; apply le_dec].
      apply Exists_exists in Hover as (seg & Hin & Hlong).
      apply list_elem_of_In in Hin. unfold compose in Hlong.
      apply (mapM_int_bad_segment _ seg Hin). intros z.
      rewrite int_over_limit; [done| |lia].
      rewrite Forall_forall in Hdigits. apply Hdigits.
      by apply list_elem_of_In. }
    unfold _is_newer_version. rewrite !parse_version_segments, Hparse.
    split; [done|].
    destruct (mapM PyStr.int (Spec.segments b)) as [lb|e] eqn:Hb; cbn; [done|].
    by apply mapM_int_raises in Hb as ->.
Qed.

Lemma is_newer_version_lexicographic_witness :
  Spec.well_formed "1.10-rc.2" ["1"; "10"] /\
  Spec.well_formed "1.9.0" ["1"; "9"; "0"] /\
  exists r, _is_newer_version "1.10-rc.2" "1.9.0" = Ok r /\
    (r = true <->
     Spec.padded_gt (Spec.ints_of ["1"; "10"]) (Spec.ints_of ["1"; "9"; "0"])).
Proof.
  assert (Ha : Spec.well_formed "1.10-rc.2" ["1"; "10"]).
  { split; [done|]. split; [by repeat constructor|].
    right. by exists "rc.2". }
  assert (Hb : Spec.well_formed "1.9.0" ["1"; "9"; "0"]).
  { split; [done|]. split; [by repeat constructor|]. by left. }
  assert (Hla : Limits.within_limit ["1"; "10"]).
  { repeat constructor; apply Nat.leb_le; vm_compute; reflexivity. }
  assert (Hlb : Limits.within_limit ["1"; "9"; "0"]).
  { repeat constructor; apply Nat.leb_le; vm_compute; reflexivity. }
  split; [exact Ha|]. split; [exact Hb|].
  exact (proj1 is_newer_version_lexicographic _ _ _ _ Ha Hb Hla Hlb).
Defined.

(** C3.  [_is_newer_version] never raises, and when a segment of either
    version (what stands between the dots, everything from the first
    hyphen on cut) is not accepted by [int], it returns [False]. *)
Theorem is_newer_version_fails_closed :
  (forall a b : string, exists r, _is_newer_version a b = Ok r) /\
  (forall (a b seg : string),
     In seg (Spec.segments a) \/ In seg (Spec.segments b) ->
     (forall z, PyStr.int seg <> Ok z) ->
     _is_newer_version a b = Ok false).
Proof.
  split; [exact is_newer_total|].
  intros a b seg Hin Hbad. unfold _is_newer_version.
  rewrite !parse_version_segments. destruct Hin as [Hin|Hin].
  - by rewrite (mapM_int_bad_segment _ seg Hin Hbad).
  - rewrite (mapM_int_bad_segment _ seg Hin Hbad).
    destruct (mapM PyStr.int (Spec.segments a)) as [la|e] eqn:Ha; cbn; [done|].
    by apply mapM_int_raises in Ha as ->.
Qed.

Lemma is_newer_version_fails_closed_witness :
  In "x" (Spec.segments "2.x.0-rc1") /\
  (forall z, PyStr.int "x" <> Ok z) /\
  _is_newer_version "2.x.0-rc1" "1.0.0" = Ok false.
Proof.
  assert (Hin : In "x" (Spec.segments "2.x.0-rc1")) by (vm_compute; auto).
  assert (Hbad : forall z, PyStr.int "x" <> Ok z) by (intros z; discriminate).
  split; [exact Hin|]. split; [exact Hbad|].
  exact (proj2 is_newer_version_fails_closed "2.x.0-rc1" "1.0.0" "x"
           (or_introl Hin) Hbad).
Defined.

(** ** Architecture *)

(** C7.  [_get_architecture] is total and answers [x64] or [arm64]:
    whatever the machine reports, lower-cased, [amd64] and [x86_64] give
    [x64], [arm64] and [aarch64] give [arm64], anything else gives
    [x64]. *)
Theorem get_architecture_total :
  forall w : world,
    let arch := PyStr.lower (w_machine w) in
    (_get_architecture w = "x64" \/ _get_architecture w = "arm64") /\
    (arch = "amd64" \/ arch = "x86_64" -> _get_architecture w = "x64") /\
    (arch = "arm64" \/ arch = "aarch64" -> _get_architecture w = "arm64") /\
    (arch <> "amd64" -> arch <> "x86_64" ->
     arch <> "arm64" -> arch <> "aarch64" -> _get_architecture w = "x64").
Proof.
  intros w arch. unfold _get_architecture, in_tuple. fold arch. cbn [existsb].
  rewrite !orb_false_r.
  destruct (String.eqb_spec arch "amd64") as [->|H1];
    [cbn; intuition congruence|].
  destruct (String.eqb_spec arch "x86_64") as [->|H2];
    [cbn; intuition congruence|].
  destruct (String.eqb_spec arch "arm64") as [->|H3];
    [cbn; intuition congruence|].
  destruct (String.eqb_spec arch "aarch64") as [->|H4];
    [cbn; intuition congruence|].
  cbn. intuition congruence.
Qed.

Lemma get_architecture_total_witness :
  PyStr.lower (w_machine (Examples.offline "AMD64")) = "amd64" /\
  _get_architecture (Examples.offline "AMD64") = "x64".
Proof.
  split; [reflexivity|].
  exact (proj1 (proj2 (get_architecture_total (Examples.offline "AMD64")))
           (or_introl eq_refl)).
Defined.

(** ** Checking for updates *)

Section CheckFacts.

Lemma truthy_dict_lookup (d : gmap string pyval) (k : string) (v : pyval) :
  d !! k = Some v -> PyVal.truthy (PDict d) = true.
Proof.
  intros H. unfold PyVal.truthy. case_bool_decide as Hd; [|done].
  subst d. by rewrite lookup_empty in H.
Qed.

Lemma truthy_or (a b : pyval) :
  PyVal.truthy (PyVal.or a b) = PyVal.truthy a || PyVal.truthy b.
Proof.
  unfold PyVal.or. destruct (PyVal.truthy a) eqn:Ha; [by rewrite Ha|done].
Qed.

Lemma arch_marker_spec (arch name : string) :
  arch_marker arch name = true <-> Spec.has_arch_marker arch name.
Proof.
  unfold arch_marker, Spec.has_arch_marker.
  rewrite !orb_true_iff, !contains_spec. tauto.
Qed.

(** The loop over well-shaped assets ends without an exception, and one of
    its two variables is set exactly when it was set before or an asset
    of the list is usable. *)
Lemma scan_assets_spec (arch : string) (assets : list pyval) :
  Forall Spec.asset_shaped assets ->
  forall i z, exists i' z',
    scan_assets arch assets i z = Ok (i', z') /\
    (PyVal.truthy i' || PyVal.truthy z' = true <->
     PyVal.truthy i || PyVal.truthy z = true \/
     Exists (Spec.usable_asset arch) assets).
Proof.
  induction 1 as [|a assets (d & -> & Hname) _ IH]; intros i z.
  - exists i, z. split; [done|]. rewrite Exists_nil. tauto.
  - cbn [scan_assets PyVal.get]. setoid_rewrite Exists_cons.
    destruct Hname as [Hn|[n Hn]]; rewrite Hn; cbn.
    + destruct (IH i z) as (i' & z' & -> & Hiff). exists i', z'.
      split; [done|]. rewrite Hiff. split; [tauto|].
      intros [?|[(d' & n & [= <-] & Hn' & _)|?]]; [tauto|congruence|tauto].
    + assert (Hd : PyVal.truthy (PDict d) = true)
        by exact (truthy_dict_lookup _ _ _ Hn).
      assert (Husable : Spec.usable_asset arch (PDict d) <->
                arch_marker arch (PyStr.lower n) = true /\
                (PyStr.endswith "-installer.exe" (PyStr.lower n) = true \/
                 PyStr.endswith "-windows.zip" (PyStr.lower n) = true)).
      { rewrite arch_marker_spec, !endswith_spec. split.
        - intros (d' & n' & [= <-] & Hn' & Hm & Hs).
          rewrite Hn in Hn'. injection Hn' as <-. done.
        - intros [Hm Hs]. exists d, n. done. }
      setoid_rewrite Husable.
      destruct (arch_marker arch (PyStr.lower n)).
      * destruct (PyStr.endswith "-installer.exe" (PyStr.lower n)).
        { destruct (IH (PDict d) z) as (i' & z' & -> & Hiff). exists i', z'.
          split; [done|]. rewrite Hiff, Hd. cbn. tauto. }
        destruct (PyStr.endswith "-windows.zip" (PyStr.lower n)).
        { destruct (IH i (PDict d)) as (i' & z' & -> & Hiff). exists i', z'.
          split; [done|]. rewrite Hiff, Hd, orb_true_r. tauto. }
        destruct (IH i z) as (i' & z' & -> & Hiff). exists i', z'.
        split; [done|]. rewrite Hiff. intuition discriminate.
      * destruct (IH i z) as (i' & z' & -> & Hiff). exists i', z'.
        split; [done|]. rewrite Hiff. intuition discriminate.
Qed.

Lemma is_newer_empty (current : string) :
  _is_newer_version "" current = Ok false.
Proof. reflexivity. Qed.

Lemma candidate_version_tag (release : gmap string pyval) (tag : string) :
  release !! "tag_name" = Some (PStr tag) ->
  candidate_version (PDict release) = Ok (PyStr.lstrip "v" tag).
Proof. intros H. unfold candidate_version. cbn. by rewrite H. Qed.

(** The check on a well-shaped release whose tag is newer. *)
Lemma check_newer_release (self : HeliumUpdater) (w : world)
    (release : gmap string pyval) (tag : string) (assets : list pyval) :
  _make_request self w (github_api_url self +:+ "/releases/latest")
    = PDict release ->
  release !! "tag_name" = Some (PStr tag) ->
  _is_newer_version (PyStr.lstrip "v" tag) (current_version self) = Ok true ->
  default (PList []) (release !! "assets") = PList assets ->
  Forall Spec.asset_shaped assets ->
  (Exists (Spec.usable_asset (_get_architecture w)) assets /\
   exists info, check_for_updates self w = Ok (Some info) /\
     info !! "version" = Some (PStr (PyStr.lstrip "v" tag)) /\
     info !! "architecture" = Some (PStr (_get_architecture w))) \/
  (~ Exists (Spec.usable_asset (_get_architecture w)) assets /\
   check_for_updates self w = Ok None).
Proof.
  intros Hreq Htag Hnewer Hassets Hshaped. unfold check_for_updates.
  rewrite Hreq, (truthy_dict_lookup _ _ _ Htag).
  rewrite (candidate_version_tag _ _ Htag). cbn [negb mbind result_bind].
  destruct (PyStr.lstrip "v" tag) as [|c rest] eqn:Hcand.
  { by rewrite is_newer_empty in Hnewer. }
  cbn [PyVal.truthy String.eqb negb]. rewrite Hnewer.
  cbn [mbind result_bind PyVal.get]. rewrite Hassets.
  cbn [PyVal.iter mbind result_bind].
  destruct (scan_assets_spec (_get_architecture w) assets Hshaped PNone PNone)
    as (i' & z' & -> & Hiff).
  cbn [mbind result_bind]. rewrite truthy_or.
  destruct (PyVal.truthy i' || PyVal.truthy z').
  - left. split.
    { destruct (proj1 Hiff eq_refl) as [Hnone|HE]; [discriminate Hnone|done]. }
    eexists. split; [reflexivity|]. split; by simplify_map_eq.
  - right. split; [|done]. intros HE.
    assert (false = true) by (apply Hiff; cbn; tauto). discriminate.
Qed.

End CheckFacts.

(** C2.  For a fetched release, well shaped, whose tag is newer than the
    current version, [check_for_updates] returns an update exactly when an
    asset of the release has a name that, lower-cased, carries the
    architecture tag as [_<arch>-], [-<arch>-] or [_<arch>_] and ends in
    [-installer.exe] or [-windows.zip], and returns [None] otherwise, in
    particular when no name carries the marker.  For the release of the
    test suite (tag 1.2.3.4, an installer and an archive for x64) checked
    from 1.0.0.0 on an x64 host, the update has version 1.2.3.4, both
    assets and architecture x64. *)
Theorem check_for_updates_asset_selection :
  (forall (self : HeliumUpdater) (w : world) (release : gmap string pyval)
          (tag : string) (assets : list pyval),
     _make_request self w (github_api_url self +:+ "/releases/latest")
       = PDict release ->
     release !! "tag_name" = Some (PStr tag) ->
     _is_newer_version (PyStr.lstrip "v" tag) (current_version self)
       = Ok true ->
     default (PList []) (release !! "assets") = PList assets ->
     Forall Spec.asset_shaped assets ->
     ((exists info, check_for_updates self w = Ok (Some info)) <->
      Exists (Spec.usable_asset (_get_architecture w)) assets) /\
     (~ Exists (Spec.usable_asset (_get_architecture w)) assets ->
      check_for_updates self w = Ok None) /\
     ((forall d n, In (PDict d) assets -> d !! "name" = Some (PStr n) ->
         ~ Spec.has_arch_marker (_get_architecture w) (PyStr.lower n)) ->
      check_for_updates self w = Ok None)) /\
  (forall (self : HeliumUpdater) (w : world),
     current_version self = "1.0.0.0" ->
     _get_architecture w = "x64" ->
     _make_request self w (github_api_url self +:+ "/releases/latest")
       = PDict Examples.mock_release ->
     exists info, check_for_updates self w = Ok (Some info) /\
       info !! "version" = Some (PStr "1.2.3.4") /\
       info !! "installer" = Some (PDict Examples.mock_installer) /\
       info !! "zip_package" = Some (PDict Examples.mock_zip) /\
       info !! "architecture" = Some (PStr "x64")).
Proof.
  split.
  - intros self w release tag assets Hreq Htag Hnewer Hassets Hshaped.
    destruct (check_newer_release self w release tag assets
                Hreq Htag Hnewer Hassets Hshaped)
      as [(HE & info & Hinfo & _)|(HnE & Hnone)].
    + split; [split; eauto|]. split; [done|].
      intros Hno. exfalso. apply Exists_exists in HE as (a & Hin & Husable).
      destruct Husable as (d & n & -> & Hn & Hm & _).
      apply (Hno d n); [by apply list_elem_of_In|done|done].
    + split; [|done]. split; [|done].
      intros [info Hinfo]. congruence.
  - intros self w Hcur Harch Hreq. exists Examples.mock_update_info.
    split.
    + unfold check_for_updates. rewrite Hreq, Hcur, Harch.
      vm_cast_no_check (eq_refl (Ok (Some Examples.mock_update_info))).
    + repeat split; vm_compute; reflexivity.
Qed.

Lemma check_for_updates_asset_selection_witness :
  let w := Examples.serving (Examples.offline "AMD64")
             (PDict Examples.mock_release) in
  let assets := [PDict Examples.mock_installer; PDict Examples.mock_zip] in
  (exists info, check_for_updates Examples.updater w = Ok (Some info)) <->
  Exists (Spec.usable_asset (_get_architecture w)) assets.
Proof.
  intros w assets.
  assert (Hshaped : Forall Spec.asset_shaped assets).
  { repeat constructor.
    - exists Examples.mock_installer. split; [reflexivity|].
      right. eexists. vm_compute. reflexivity.
    - exists Examples.mock_zip. split; [reflexivity|].
      right. eexists. vm_compute. reflexivity. }
  exact (proj1 (proj1 check_for_updates_asset_selection Examples.updater w
                  Examples.mock_release "1.2.3.4" assets
                  eq_refl eq_refl eq_refl eq_refl Hshaped)).
Defined.

(** C8, as the claim has it, fails on a tag that two [v] start:
    [lstrip('v')] takes both away, one [v] stripped would leave the other. *)
Lemma candidate_version_double_v :
  candidate_version (PDict (<["tag_name" := PStr "vv2.0"]> ∅))
  <> Ok (Spec.strip_leading_v "vv2.0").
Proof. intros H. vm_compute in H. discriminate H. Qed.

Section CandidateFacts.

Lemma lstrip_v_run (tag : string) :
  exists n, tag = Spec.v_run n +:+ PyStr.lstrip "v" tag /\
    PyStr.startswith "v" (PyStr.lstrip "v" tag) = false.
Proof.
  induction tag as [|c tag (n & Htag & Hstart)].
  - by exists 0%nat.
  - cbn [PyStr.lstrip PyStr.mem_char]. rewrite orb_false_r.
    destruct (Ascii.eqb c "v") eqn:Hc.
    + apply Ascii.eqb_eq in Hc as ->. exists (S n). split; [|done].
      change (Spec.v_run (S n) +:+ PyStr.lstrip "v" tag)
        with (String "v" (Spec.v_run n +:+ PyStr.lstrip "v" tag)).
      congruence.
    + exists 0%nat. split; [done|]. cbn [PyStr.startswith].
      by rewrite (Ascii.eqb_sym "v" c), Hc.
Qed.

Lemma lstrip_v_no_v (s : string) :
  PyStr.startswith "v" s = false -> PyStr.lstrip "v" s = s.
Proof.
  destruct s as [|c s]; [done|].
  cbn [PyStr.startswith PyStr.lstrip PyStr.mem_char].
  rewrite orb_false_r, andb_true_r, (Ascii.eqb_sym "v" c). by intros ->.
Qed.

Lemma lstrip_v_single (tag : string) :
  PyStr.startswith "vv" tag = false ->
  PyStr.lstrip "v" tag = Spec.strip_leading_v tag.
Proof.
  destruct tag as [|c tag]; [done|].
  cbn [PyStr.lstrip PyStr.mem_char Spec.strip_leading_v PyStr.startswith].
  rewrite orb_false_r, (Ascii.eqb_sym "v" c).
  destruct (Ascii.eqb c "v"); [|done].
  cbn [andb]. apply lstrip_v_no_v.
Qed.

End CandidateFacts.

(** C8, amended.  The candidate version of [check_for_updates] is the
    release's tag with every leading [v] taken away, the rest unchanged
    (for a tag that does not start with two [v] this is the tag with its
    leading [v] stripped, if it has one); it is the version of the update
    the check returns, and when it is empty the check returns [None]. *)
Theorem candidate_version_lstrip :
  (forall (release : gmap string pyval) (tag : string),
     release !! "tag_name" = Some (PStr tag) ->
     exists n c, candidate_version (PDict release) = Ok c /\
       tag = Spec.v_run n +:+ c /\ PyStr.startswith "v" c = false /\
       (PyStr.startswith "vv" tag = false -> c = Spec.strip_leading_v tag)) /\
  (forall (self : HeliumUpdater) (w : world) (release : gmap string pyval)
          (c : string),
     _make_request self w (github_api_url self +:+ "/releases/latest")
       = PDict release ->
     candidate_version (PDict release) = Ok c ->
     (c = "" -> check_for_updates self w = Ok None) /\
     (forall info, check_for_updates self w = Ok (Some info) ->
        info !! "version" = Some (PStr c))).
Proof.
  split.
  - intros release tag Htag. destruct (lstrip_v_run tag) as (n & Hn & Hstart).
    exists n, (PyStr.lstrip "v" tag).
    split; [by apply candidate_version_tag|]. split; [done|]. split; [done|].
    apply lstrip_v_single.
  - intros self w release c Hreq Hcand. unfold check_for_updates.
    rewrite Hreq. destruct (PyVal.truthy (PDict release)); [|done].
    rewrite Hcand. cbn [negb mbind result_bind]. split.
    + by intros ->.
    + intros info. destruct (PyVal.truthy (PStr c)); [|done]. cbn [negb].
      destruct (_is_newer_version c (current_version self)) as [[|]|e];
        cbn [mbind result_bind]; try done.
      cbn [PyVal.get mbind result_bind].
      destruct (PyVal.iter _) as [assets|e]; cbn [mbind result_bind]; [|done].
      destruct (scan_assets _ assets PNone PNone) as [[i z]|e];
        cbn [mbind result_bind]; [|done].
      destruct (PyVal.truthy (PyVal.or i z)); [|done].
      cbn. intros [= <-]. by simplify_map_eq.
Qed.

Lemma candidate_version_lstrip_witness :
  exists n c,
    candidate_version (PDict (<["tag_name" := PStr "vv2.0"]> ∅)) = Ok c /\
    "vv2.0" = Spec.v_run n +:+ c /\ PyStr.startswith "v" c = false /\
    (PyStr.startswith "vv" "vv2.0" = false ->
     c = Spec.strip_leading_v "vv2.0").
Proof.
  exact (proj1 candidate_version_lstrip (<["tag_name" := PStr "vv2.0"]> ∅)
           "vv2.0" eq_refl).
Defined.

(** ** Download *)

Section DownloadFacts.

Context (self : HeliumUpdater) (w : world).

(** Once an asset with a download URL and a name is selected, the
    download is the [try] statement. *)
Lemma download_update_selected (info asset : gmap string pyval)
    (url : pyval) (name : string) (cb : option callback) (st : state) :
  select_asset info = PDict asset ->
  asset !! "browser_download_url" = Some url ->
  PyVal.truthy url = true ->
  asset !! "name" = Some (PStr name) ->
  download_update self w info cb st =
  try_except_M
    (transfer self w url (w_path_join w (w_tempdir w) name) cb)
    any_Exception
    (download_failed w (w_path_join w (w_tempdir w) name)) st.
Proof.
  intros Hsel Hurl Htruthy Hname. unfold download_update.
  rewrite Hsel, (truthy_dict_lookup _ _ _ Hurl).
  cbn [negb PyVal.get]. rewrite Hurl, Hname. cbn [default].
  unfold mbind, M_bind, lift, id. rewrite Htruthy. reflexivity.
Qed.

(** Where the host lets it, the handler deletes the file if it is there
    and answers [None]. *)
Lemma download_failed_spec (path : string) (e : exn) (st : state) :
  Select.handler_safe w path ->
  exists post,
    download_failed w path e st =
      (Ok None, {| st_fs := delete path (st_fs st);
                   st_trace := st_trace st ++ post |}) /\
    Spec.io_events post = [] /\
    (is_Some (st_fs st !! path) -> last post = Some (EvUnlink path)).
Proof.
  intros (Hexists & Hdir & Hunlink).
  unfold download_failed, mbind, M_bind, emit, path_exists, path_unlink_on,
    path_unlink, mret, M_ret. cbn [st_fs st_trace].
  rewrite Hexists, Hdir, orb_false_r.
  destruct (st_fs st !! path) as [content|] eqn:Hfile.
  - rewrite bool_decide_eq_true_2 by eauto. cbn [st_fs st_trace].
    rewrite Hunlink, Hfile.
    exists [EvPrint "Error downloading update" e; EvUnlink path].
    split; [by rewrite <- app_assoc|]. done.
  - rewrite bool_decide_eq_false_2 by (intros [? ?]; done).
    exists [EvPrint "Error downloading update" e].
    split; [by rewrite delete_id|]. split; [done|].
    intros [? ?]; done.
Qed.

(** On any host the handler writes nothing and calls nothing; it leaves
    the files as they are or deletes the one at the path. *)
Lemma download_failed_effects (path : string) (e : exn) (st st' : state)
    (r : result (option string)) :
  download_failed w path e st = (r, st') ->
  exists post,
    st_trace st' = st_trace st ++ post /\ Spec.io_events post = [] /\
    (st_fs st' = st_fs st \/ st_fs st' = delete path (st_fs st)).
Proof.
  unfold download_failed, mbind, M_bind, emit, path_exists, path_unlink_on,
    path_unlink, mret, M_ret. cbn [st_fs st_trace].
  destruct (w_exists_fault w path) as [e1|].
  { intros [= <- <-]. exists [EvPrint "Error downloading update" e]. auto. }
  destruct (_ || _).
  - destruct (w_is_dir w path).
    { intros [= <- <-]. exists [EvPrint "Error downloading update" e]. auto. }
    destruct (w_unlink_fault w path) as [e1|].
    { intros [= <- <-]. exists [EvPrint "Error downloading update" e]. auto. }
    cbn [st_fs st_trace].
    destruct (st_fs st !! path) as [content|].
    + intros [= <- <-].
      exists [EvPrint "Error downloading update" e; EvUnlink path].
      cbn [st_fs st_trace]. rewrite <- app_assoc. auto.
    + intros [= <- <-]. exists [EvPrint "Error downloading update" e]. auto.
  - intros [= <- <-]. exists [EvPrint "Error downloading update" e]. auto.
Qed.

(** The handler never answers with a path. *)
Lemma download_failed_no_path (path p : string) (e : exn) (st : state) :
  (download_failed w path e st).1 <> Ok (Some p).
Proof.
  unfold download_failed, mbind, M_bind, emit, path_exists, path_unlink_on,
    path_unlink, mret, M_ret. cbn [st_fs st_trace].
  destruct (w_exists_fault w path); [done|].
  destruct (_ || _); [|done].
  destruct (w_is_dir w path); [done|].
  destruct (w_unlink_fault w path); [done|].
  cbn [st_fs st_trace]. by destruct (st_fs st !! path).
Qed.

End DownloadFacts.

(** What the method is written to do, it does where the host lets the
    handler work: when the transfer raises, [None] is returned and no
    file remains at the target path. *)
Lemma download_failure_cleanup_when_safe
    (self : HeliumUpdater) (w : world) (info asset : gmap string pyval)
    (url : pyval) (name : string) (cb : option callback) (e : exn)
    (st st1 : state) :
  select_asset info = PDict asset ->
  asset !! "browser_download_url" = Some url ->
  PyVal.truthy url = true ->
  asset !! "name" = Some (PStr name) ->
  Select.handler_safe w (w_path_join w (w_tempdir w) name) ->
  transfer self w url (w_path_join w (w_tempdir w) name) cb st
    = (Raise e, st1) ->
  exists st',
    download_update self w info cb st = (Ok None, st') /\
    st_fs st' = delete (w_path_join w (w_tempdir w) name) (st_fs st1).
Proof.
  intros Hsel Hurl Htruthy Hname Hsafe Hraise.
  rewrite (download_update_selected self w info asset url name cb st)
    by assumption.
  unfold try_except_M. rewrite Hraise. cbn [any_Exception].
  destruct (download_failed_spec w (w_path_join w (w_tempdir w) name) e st1
              Hsafe) as (post & -> & _).
  by eexists.
Qed.

(** C4.  The handler of [download_update] calls [exists] and [unlink] on
    the target path with nothing around them, and what they raise leaves
    the method.  On a host that answers the download, for an asset with
    an empty name the target is the temporary directory: [open] fails
    inside the [try] block, the handler finds that the path exists and
    its [unlink] raises, so that the method raises instead of returning
    [None].  For an asset whose name is longer than a file name can be,
    [open] fails and the existence test of the handler raises again.
    And when the transfer breaks after a block was written and the host
    refuses to delete the file, the method raises and the partial file
    stays. *)
Theorem download_update_handler_raises :
  (download_update Examples.updater Faults.tempdir_host
     Faults.empty_name_update None Examples.empty_state).1 = Raise OSError /\
  (download_update Examples.updater Faults.name_max_host
     Faults.long_name_update None Examples.empty_state).1 = Raise OSError /\
  (download_update Examples.updater Faults.locking_host
     MoreExamples.small_update None Examples.empty_state).1 = Raise OSError /\
  st_fs (download_update Examples.updater Faults.locking_host
           MoreExamples.small_update None Examples.empty_state).2
    !! "/tmp/i.exe" = Some (Examples.bytes 4).
Proof.
  split; [|split; [|split]]; vm_compute; reflexivity.
Qed.

(** C10.  When the installer entry of the update is an asset (a non-empty
    object) that has no download URL, [download_update] returns [None] and
    does nothing else, whatever the archive entry is; the asset selected
    is the installer entry unless that entry is absent ([None], missing
    or empty), the only case in which it is the archive entry. *)
Theorem download_update_no_fallback :
  (forall (self : HeliumUpdater) (w : world) (info d : gmap string pyval)
          (cb : option callback) (st : state),
     info !! "installer" = Some (PDict d) -> d <> ∅ ->
     PyVal.truthy (default PNone (d !! "browser_download_url")) = false ->
     download_update self w info cb st = (Ok None, st)) /\
  (forall info : gmap string pyval,
     select_asset info = default PNone (info !! "installer") \/
     (PyVal.truthy (default PNone (info !! "installer")) = false /\
      select_asset info = default PNone (info !! "zip_package"))).
Proof.
  split.
  - intros self w info d cb st Hinst Hne Hurl. unfold download_update.
    assert (Hd : PyVal.truthy (PDict d) = true).
    { unfold PyVal.truthy. by rewrite bool_decide_eq_false_2. }
    unfold select_asset, PyVal.or. rewrite Hinst. cbn [default]. unfold id.
    rewrite !Hd. cbn [negb PyVal.get].
    unfold mbind, M_bind, lift. by rewrite Hurl.
  - intros info. unfold select_asset, PyVal.or.
    destruct (PyVal.truthy (default PNone (info !! "installer"))); auto.
Qed.

Lemma download_update_no_fallback_witness :
  let w := Examples.streaming (Examples.offline "AMD64") Examples.ten_bytes in
  PyVal.truthy (default PNone (Examples.installer_without_url !! "zip_package"))
    = true /\
  download_update Examples.updater w Examples.installer_without_url None
    Examples.empty_state = (Ok None, Examples.empty_state).
Proof.
  intros w. split; [vm_compute; reflexivity|].
  refine (proj1 download_update_no_fallback Examples.updater w
            Examples.installer_without_url
            (<["name" := PStr "helium_x64-installer.exe"]> ∅)
            None Examples.empty_state _ _ _).
  - vm_compute; reflexivity.
  - intros H. apply (f_equal (fun m => m !! "name")) in H.
    vm_compute in H. discriminate H.
  - vm_compute; reflexivity.
Defined.

Section ProgressFacts.

Lemma written_chunks_io (tr : list event) :
  Spec.written_chunks (Spec.io_events tr) = Spec.written_chunks tr.
Proof.
  induction tr as [|[] tr IH]; cbn;
    first [exact IH | f_equal; exact IH | reflexivity].
Qed.

Lemma progress_calls_io (tr : list event) :
  Spec.progress_calls (Spec.io_events tr) = Spec.progress_calls tr.
Proof.
  induction tr as [|[] tr IH]; cbn;
    first [exact IH | f_equal; exact IH | reflexivity].
Qed.

Lemma io_events_app (a b : list event) :
  Spec.io_events (a ++ b) = Spec.io_events a ++ Spec.io_events b.
Proof. apply List.filter_app. Qed.

Lemma io_events_write_then_progress path total from chunks :
  Spec.io_events (Spec.write_then_progress path total from chunks)
  = Spec.write_then_progress path total from chunks.
Proof.
  revert from. induction chunks as [|c chunks IH]; intros from; [done|].
  cbn. by rewrite IH.
Qed.

Lemma written_chunks_write_then_progress path total from chunks :
  Spec.written_chunks (Spec.write_then_progress path total from chunks)
  = chunks.
Proof.
  revert from. induction chunks as [|c chunks IH]; intros from; [done|].
  cbn. by rewrite IH.
Qed.

Lemma progress_calls_write_then_progress path total from chunks :
  Spec.progress_calls (Spec.write_then_progress path total from chunks)
  = (fun t => (t, total)) <$> Spec.running_totals from chunks.
Proof.
  revert from. induction chunks as [|c chunks IH]; intros from; [done|].
  cbn. by rewrite IH.
Qed.

Lemma running_totals_increasing (from : Z) (chunks : list (list byte)) :
  Forall (fun c => c <> []) chunks ->
  Spec.strictly_increasing (Spec.running_totals from chunks) /\
  Forall (fun t => from < t) (Spec.running_totals from chunks).
Proof.
  intros H. revert from.
  induction H as [|c chunks Hc _ IH]; intros from; [by split|].
  assert (0 < Z.of_nat (length c)) by (destruct c; [done|cbn; lia]).
  destruct (IH (from + Z.of_nat (length c))) as [Hinc Hlt].
  cbn [Spec.running_totals]. split.
  - destruct chunks as [|c' chunks]; [done|].
    cbn [Spec.running_totals Spec.strictly_increasing] in *.
    split; [|exact Hinc]. by apply Forall_cons in Hlt as [? _].
  - constructor; [lia|]. eapply Forall_impl; [exact Hlt|]. cbn. lia.
Qed.

Lemma last_running_totals (from : Z) (chunks : list (list byte)) :
  chunks <> [] ->
  last (Spec.running_totals from chunks)
  = Some (from + Spec.total_length chunks).
Proof.
  revert from. induction chunks as [|c chunks IH]; intros from Hne; [done|].
  destruct chunks as [|c' chunks].
  - cbn. f_equal. lia.
  - change (Spec.running_totals from (c :: c' :: chunks))
      with ((from + Z.of_nat (length c)) ::
            Spec.running_totals (from + Z.of_nat (length c)) (c' :: chunks)).
    change (Spec.running_totals (from + Z.of_nat (length c)) (c' :: chunks))
      with ((from + Z.of_nat (length c) + Z.of_nat (length c')) ::
            Spec.running_totals
              (from + Z.of_nat (length c) + Z.of_nat (length c')) chunks)
      at 1.
    rewrite last_cons_cons.
    change (last _) with
      (last (Spec.running_totals (from + Z.of_nat (length c)) (c' :: chunks))).
    rewrite IH by done.
    f_equal. unfold Spec.total_length. cbn [fold_right]. lia.
Qed.

Context (w : world) (path : string) (f : callback) (total : Z).
Hypothesis total_positive : 0 < total.

(** The loop writes block after block, each write followed by one call
    of the callback with the bytes so far; and it ends without an
    exception only when it has gone through the whole stream. *)
Lemma read_loop_trace (reads : list (exn + list byte)) :
  forall (downloaded : Z) (n : nat) (st st' : state) (r : result unit),
    read_loop w path (Some f) total reads downloaded n st = (r, st') ->
    exists chunks,
      st_trace st' =
        st_trace st ++ Spec.write_then_progress path total downloaded chunks /\
      Forall (fun c => c <> []) chunks /\
      (r = Ok tt -> chunks = Spec.stream_chunks reads).
Proof.
  induction reads as [|[e|[|b c]] reads IH];
    intros downloaded n st st' r Hrun; cbn [read_loop] in Hrun.
  - injection Hrun as <- <-. exists []. by rewrite app_nil_r.
  - injection Hrun as <- <-. exists []. by rewrite app_nil_r.
  - injection Hrun as <- <-. exists []. by rewrite app_nil_r.
  - unfold mbind, M_bind in Hrun.
    unfold file_write in Hrun at 1.
    destruct (w_write_fault w n) as [e|].
    { injection Hrun as <- <-. exists []. by rewrite app_nil_r. }
    apply Z.ltb_lt in total_positive as Hpos. rewrite Hpos in Hrun.
    unfold call_progress, mbind, M_bind, emit in Hrun.
    cbn [st_fs st_trace] in Hrun.
    destruct (f (downloaded + Z.of_nat (length (b :: c))) total) as [e|].
    + injection Hrun as <- <-. exists [b :: c]. cbn [st_trace].
      split; [by rewrite <- app_assoc|]. split; [by repeat constructor|done].
    + cbn [mret M_ret] in Hrun.
      apply IH in Hrun as (chunks & Htrace & Hne & Hall).
      exists ((b :: c) :: chunks). cbn [st_trace] in Htrace.
      split; [by rewrite Htrace, <- !app_assoc|].
      split; [by constructor|].
      intros Hr. cbn [Spec.stream_chunks]. by rewrite (Hall Hr).
Qed.

End ProgressFacts.

Section TransferFacts.

Context (self : HeliumUpdater) (w : world).

Lemma transfer_trace (url path : string) (f : callback) (resp : response)
    (total : Z) (st st1 : state) (r : result (option string)) :
  w_urlopen w url [("User-Agent", user_agent self)] 30 = inr resp ->
  content_length resp = Ok total -> 0 < total ->
  transfer self w (PStr url) path (Some f) st = (r, st1) ->
  exists pre chunks,
    st_trace st1 =
      st_trace st ++ pre ++ Spec.write_then_progress path total 0 chunks /\
    Spec.io_events pre = [] /\
    Forall (fun c => c <> []) chunks /\
    (forall p, r = Ok (Some p) ->
       chunks = Spec.stream_chunks (resp_reads resp)).
Proof.
  intros Hopen Hlen Hpos Hrun.
  unfold transfer, mbind, M_bind, lift, emit in Hrun.
  rewrite Hopen, Hlen in Hrun. unfold open_wb in Hrun.
  cbn [st_fs st_trace] in Hrun.
  destruct (w_open_fault w path) as [e|].
  { injection Hrun as <- <-. eexists [_], []. cbn [st_trace].
    split; [reflexivity|]. split; [reflexivity|]. by split. }
  destruct (read_loop w path (Some f) total (resp_reads resp) 0 0%nat _)
    as [r2 st2] eqn:Hloop.
  apply (read_loop_trace w path f total Hpos) in Hloop
    as (chunks & Htrace & Hne & Hall).
  cbn [st_trace] in Htrace.
  exists [EvUrlopen url [("User-Agent", user_agent self)] 30; EvOpen path],
    chunks.
  destruct r2 as [[]|e]; injection Hrun as <- <-.
  - split; [by rewrite Htrace, <- !app_assoc|]. split; [done|].
    split; [done|]. intros p _. by apply Hall.
  - split; [by rewrite Htrace, <- !app_assoc|]. split; [done|].
    split; [done|]. intros p [=].
Qed.

End TransferFacts.

(** A download is complete for the method as soon as the stream ends: the
    response that declares ten bytes and delivers four gives a path, and
    its one call of the callback is [(4, 10)]. *)
Lemma progress_truncated_download :
  content_length Faults.truncated = Ok 10 /\
  Faults.truncated_run.1 = Ok (Some "/tmp/i.exe") /\
  Spec.progress_calls (st_trace Faults.truncated_run.2) = [(4, 10)] /\
  last (Spec.progress_calls (st_trace Faults.truncated_run.2))
    <> Some (10, 10).
Proof.
  split; [|split; [|split]]; vm_compute; [reflexivity..|discriminate].
Qed.

(** C5.  In a download whose response declares a content length [total]
    greater than zero, with a progress callback given, the writes and the
    calls of the callback alternate: each block read and written is
    followed by one call, whose first argument is the number of bytes so
    far and whose second is [total]; the first arguments increase
    strictly, hence never decrease; and when the download returns a
    path, every block of the stream was reported and the last call has
    as its first argument the number of bytes the stream delivered, which
    is [total] exactly when the stream delivered the bytes it declared. *)
Theorem progress_callback_after_each_chunk :
  forall (self : HeliumUpdater) (w : world) (info asset : gmap string pyval)
         (url name : string) (f : callback) (resp : response) (total : Z)
         (st st' : state) (r : result (option string)),
    select_asset info = PDict asset ->
    asset !! "browser_download_url" = Some (PStr url) -> url <> "" ->
    asset !! "name" = Some (PStr name) ->
    w_urlopen w url [("User-Agent", user_agent self)] 30 = inr resp ->
    content_length resp = Ok total -> 0 < total ->
    download_update self w info (Some f) st = (r, st') ->
    exists tr,
      st_trace st' = st_trace st ++ tr /\
      Spec.io_events tr =
        Spec.write_then_progress (w_path_join w (w_tempdir w) name) total 0
          (Spec.written_chunks tr) /\
      Spec.progress_calls tr =
        (fun t => (t, total)) <$>
          Spec.running_totals 0 (Spec.written_chunks tr) /\
      Spec.strictly_increasing
        (Spec.running_totals 0 (Spec.written_chunks tr)) /\
      (forall p, r = Ok (Some p) ->
         Spec.written_chunks tr = Spec.stream_chunks (resp_reads resp) /\
         (Spec.stream_chunks (resp_reads resp) <> [] ->
          last (Spec.progress_calls tr) =
            Some (Spec.total_length (Spec.stream_chunks (resp_reads resp)),
                  total)) /\
         (last (Spec.progress_calls tr) = Some (total, total) <->
          Spec.total_length (Spec.stream_chunks (resp_reads resp)) = total)).
Proof.
  intros self w info asset url name f resp total st st' r
    Hsel Hurl Hne Hname Hopen Hlen Hpos Hrun.
  set (path := w_path_join w (w_tempdir w) name) in *.
  rewrite (download_update_selected self w info asset (PStr url) name
             (Some f) st Hsel Hurl) in Hrun;
    [|by destruct url|exact Hname].
  fold path in Hrun. unfold try_except_M in Hrun.
  destruct (transfer self w (PStr url) path (Some f) st) as [r1 st1] eqn:Ht.
  destruct (transfer_trace self w url path f resp total st st1 r1
              Hopen Hlen Hpos Ht) as (pre & chunks & Htrace & Hpre & Hnonempty & Hall).
  assert (Hshape : exists post,
            st_trace st' = st_trace st1 ++ post /\ Spec.io_events post = [] /\
            (forall p, r = Ok (Some p) -> r1 = Ok (Some p))).
  { destruct r1 as [v|e].
    - injection Hrun as <- <-. exists []. by rewrite app_nil_r.
    - cbn [any_Exception] in Hrun.
      destruct (download_failed_effects w path e st1 st' r Hrun)
        as (post & Hfail & Hpost & _).
      exists post. split; [done|]. split; [done|]. intros p ->.
      by destruct (download_failed_no_path w path p e st1); rewrite Hrun. }
  destruct Hshape as (post & Htrace' & Hpost & Hok).
  exists (pre ++ Spec.write_then_progress path total 0 chunks ++ post).
  assert (Hio : Spec.io_events
                  (pre ++ Spec.write_then_progress path total 0 chunks ++ post)
                = Spec.write_then_progress path total 0 chunks).
  { rewrite !io_events_app, Hpre, Hpost, app_nil_r.
    apply io_events_write_then_progress. }
  assert (Hchunks : Spec.written_chunks
                      (pre ++ Spec.write_then_progress path total 0 chunks ++ post)
                    = chunks).
  { by rewrite <- written_chunks_io, Hio, written_chunks_write_then_progress. }
  assert (Hcalls : Spec.progress_calls
                     (pre ++ Spec.write_then_progress path total 0 chunks ++ post)
                   = (fun t => (t, total)) <$> Spec.running_totals 0 chunks).
  { by rewrite <- progress_calls_io, Hio, progress_calls_write_then_progress. }
  rewrite Hchunks, Hcalls.
  split; [by rewrite Htrace', Htrace, <- !app_assoc|].
  split; [exact Hio|]. split; [done|].
  split; [by apply running_totals_increasing|].
  intros p Hr. specialize (Hall p (Hok p Hr)). split; [done|].
  rewrite <- Hall, fmap_last.
  destruct chunks as [|c chunks]; [split; [done|]; cbn; split; [done|lia]|].
  rewrite last_running_totals by done.
  generalize (Spec.total_length (c :: chunks)). intros n.
  cbn [fmap option_fmap option_map]. replace (0 + n) with n by lia.
  split; [done|]. split; [by intros [= ->]|by intros ->].
Qed.

Lemma progress_callback_after_each_chunk_witness :
  let w := Examples.streaming (Examples.offline "AMD64") Examples.ten_bytes in
  exists tr,
    st_trace Examples.complete_state = st_trace Examples.empty_state ++ tr /\
    Spec.io_events tr =
      Spec.write_then_progress
        (w_path_join w (w_tempdir w) "helium_1.2.3.4_x64-installer.exe") 10 0
        (Spec.written_chunks tr) /\
    Spec.progress_calls tr =
      (fun t => (t, 10)) <$> Spec.running_totals 0 (Spec.written_chunks tr) /\
    Spec.strictly_increasing
      (Spec.running_totals 0 (Spec.written_chunks tr)) /\
    (forall p, Ok (Some Examples.installer_path) = Ok (Some p) ->
       Spec.written_chunks tr
         = Spec.stream_chunks (resp_reads Examples.ten_bytes) /\
       (Spec.stream_chunks (resp_reads Examples.ten_bytes) <> [] ->
        last (Spec.progress_calls tr) =
          Some (Spec.total_length
                  (Spec.stream_chunks (resp_reads Examples.ten_bytes)), 10)) /\
       (last (Spec.progress_calls tr) = Some (10, 10) <->
        Spec.total_length (Spec.stream_chunks (resp_reads Examples.ten_bytes))
          = 10)).
Proof.
  intros w.
  refine (progress_callback_after_each_chunk Examples.updater w
            Examples.installer_only Examples.mock_installer
            Examples.installer_url "helium_1.2.3.4_x64-installer.exe"
            Examples.silent Examples.ten_bytes 10
            Examples.empty_state Examples.complete_state
            (Ok (Some Examples.installer_path)) _ _ _ _ _ _ _ _).
  - vm_compute; reflexivity.
  - vm_compute; reflexivity.
  - discriminate.
  - vm_compute; reflexivity.
  - vm_compute; reflexivity.
  - vm_compute; reflexivity.
  - lia.
  - vm_compute; reflexivity.
Defined.

(** ** Install and cleanup *)

Section InstallFacts.





End InstallFacts.






(** * Further properties *)

(** ** The order on versions *)

Section OrderFacts.

(** The bound on the deciding position is implied: past both lengths the
    components are zero on both sides. *)
Lemma padded_gt_first_difference (a b : list Z) :
  Spec.padded_gt a b <->
  exists i, (forall j, (j < i)%nat -> Spec.component a j = Spec.component b j) /\
    Spec.component b i < Spec.component a i.
Proof.
  unfold Spec.padded_gt. split.
  - intros (i & _ & Hpre & Hgt). eauto.
  - intros (i & Hpre & Hgt). exists i. split; [|done].
    destruct (Nat.lt_ge_cases i (Nat.max (length a) (length b)))
      as [Hi|Hi]; [done|].
    unfold Spec.component in Hgt.
    rewrite (nth_overflow a), (nth_overflow b) in Hgt by lia. lia.
Qed.

Lemma padded_gt_asymmetric (a b : list Z) :
  Spec.padded_gt a b -> ~ Spec.padded_gt b a.
Proof.
  rewrite !padded_gt_first_difference.
  intros (i & Hi & Hgt) (j & Hj & Hlt).
  destruct (Nat.lt_trichotomy i j) as [Hij|[->|Hij]].
  - specialize (Hj i Hij). lia.
  - lia.
  - specialize (Hi j Hij). lia.
Qed.

Lemma padded_gt_transitive (a b c : list Z) :
  Spec.padded_gt a b -> Spec.padded_gt b c -> Spec.padded_gt a c.
Proof.
  rewrite !padded_gt_first_difference.
  intros (i & Hi & Hgt) (j & Hj & Hlt).
  destruct (Nat.lt_trichotomy i j) as [Hij|[->|Hij]].
  - exists i. split.
    + intros k Hk. rewrite (Hi k Hk). apply Hj. lia.
    + rewrite <- (Hj i Hij). done.
  - exists j. split.
    + intros k Hk. rewrite (Hi k Hk). by apply Hj.
    + lia.
  - exists j. split.
    + intros k Hk. rewrite <- (Hj k Hk). apply Hi. lia.
    + rewrite (Hi j Hij). done.
Qed.

Lemma padded_gt_total (a b : list Z) :
  ~ Spec.padded_gt a b -> ~ Spec.padded_gt b a ->
  forall i, Spec.component a i = Spec.component b i.
Proof.
  rewrite !padded_gt_first_difference. intros Hab Hba i.
  induction i as [i IH] using lt_wf_ind.
  destruct (Z.lt_trichotomy (Spec.component a i) (Spec.component b i))
    as [Hlt|[Heq|Hgt]]; [|done|].
  - exfalso. apply Hba. exists i. split; [|done].
    intros j Hj. symmetry. by apply IH.
  - exfalso. apply Hab. exists i. split; [|lia].
    intros j Hj. by apply IH.
Qed.

(** The comparison, once both versions are parsed. *)
Lemma is_newer_parsed (a b : string) (la lb : list Z) :
  parse_version a = Ok la -> parse_version b = Ok lb ->
  exists r, _is_newer_version a b = Ok r /\
    (r = true <-> Spec.padded_gt la lb).
Proof.
  intros Ha Hb. unfold _is_newer_version. rewrite Ha, Hb.
  cbn [mbind result_bind mret result_ret try_except].
  eexists. split; [reflexivity|]. apply list_gt_padded.
Qed.

Lemma is_newer_unparsed_left (a b : string) (e : exn) :
  parse_version a = Raise e -> _is_newer_version a b = Ok false.
Proof.
  intros Ha. unfold _is_newer_version. rewrite Ha.
  rewrite parse_version_segments in Ha.
  by apply mapM_int_raises in Ha as ->.
Qed.

Lemma is_newer_unparsed_right (a b : string) (e : exn) :
  parse_version b = Raise e -> _is_newer_version a b = Ok false.
Proof.
  intros Hb. destruct (is_newer_total a b) as [r Hr]. rewrite Hr.
  unfold _is_newer_version in Hr. rewrite Hb in Hr.
  rewrite parse_version_segments in Hb. apply mapM_int_raises in Hb as ->.
  destruct (parse_version a) as [la|ea] eqn:Ha; cbn in Hr; [congruence|].
  rewrite parse_version_segments in Ha. apply mapM_int_raises in Ha as ->.
  cbn in Hr. congruence.
Qed.

Lemma is_newer_true_parsed (a b : string) :
  _is_newer_version a b = Ok true ->
  exists la lb, parse_version a = Ok la /\ parse_version b = Ok lb /\
    Spec.padded_gt la lb.
Proof.
  intros H. destruct (parse_version a) as [la|e] eqn:Ha.
  - destruct (parse_version b) as [lb|e] eqn:Hb.
    + exists la, lb. split; [done|]. split; [done|].
      destruct (is_newer_parsed a b la lb Ha Hb) as (r & Hr & Hiff).
      apply Hiff. congruence.
    + rewrite (is_newer_unparsed_right a b e Hb) in H. discriminate H.
  - rewrite (is_newer_unparsed_left a b e Ha) in H. discriminate H.
Qed.

End OrderFacts.

(** X1.  Two versions that are the same up to their pre-release suffixes
    (the same text before the first hyphen) are never newer than one
    another: a release is not newer than its own pre-release, and no
    version is newer than itself, whether it parses or not. *)
Theorem same_core_not_newer :
  forall a b : string,
    Spec.before_hyphen a = Spec.before_hyphen b ->
    _is_newer_version a b = Ok false.
Proof.
  intros a b Hcore.
  assert (Hparse : parse_version a = parse_version b).
  { rewrite !parse_version_segments. unfold Spec.segments. by rewrite Hcore. }
  destruct (parse_version b) as [l|e] eqn:Hb.
  - destruct (is_newer_parsed a b l l Hparse Hb) as ([|] & Hr & Hiff);
      [|exact Hr].
    exfalso. apply (padded_gt_asymmetric l l); by apply Hiff.
  - exact (is_newer_unparsed_right a b e Hb).
Qed.

Lemma same_core_not_newer_witness :
  _is_newer_version "1.2.0" "1.2.0-beta.1" = Ok false.
Proof. exact (same_core_not_newer "1.2.0" "1.2.0-beta.1" eq_refl). Defined.

(** X2.  The comparison is asymmetric: when [a] is newer than [b], [b] is
    not newer than [a]. *)
Theorem is_newer_asymmetric :
  forall a b : string,
    _is_newer_version a b = Ok true -> _is_newer_version b a = Ok false.
Proof.
  intros a b H.
  destruct (is_newer_true_parsed a b H) as (la & lb & Ha & Hb & Hgt).
  destruct (is_newer_parsed b a lb la Hb Ha) as ([|] & Hr & Hiff); [|exact Hr].
  exfalso. apply (padded_gt_asymmetric la lb Hgt). by apply Hiff.
Qed.

Lemma is_newer_asymmetric_witness :
  _is_newer_version "1.0.9" "1.0.10" = Ok false.
Proof. exact (is_newer_asymmetric "1.0.10" "1.0.9" eq_refl). Defined.

(** X3.  The comparison is transitive, although each pair is padded to
    its own common length: when [a] is newer than [b] and [b] newer than
    [c], [a] is newer than [c]. *)
Theorem is_newer_transitive :
  forall a b c : string,
    _is_newer_version a b = Ok true -> _is_newer_version b c = Ok true ->
    _is_newer_version a c = Ok true.
Proof.
  intros a b c Hab Hbc.
  destruct (is_newer_true_parsed a b Hab) as (la & lb & Ha & Hb & Hgt1).
  destruct (is_newer_true_parsed b c Hbc) as (lb' & lc & Hb' & Hc & Hgt2).
  assert (lb' = lb) as -> by congruence.
  destruct (is_newer_parsed a c la lc Ha Hc) as (r & Hr & Hiff).
  rewrite Hr. f_equal. apply Hiff.
  exact (padded_gt_transitive la lb lc Hgt1 Hgt2).
Qed.

Lemma is_newer_transitive_witness :
  _is_newer_version "2" "1.0.0.9-rc1" = Ok true.
Proof.
  exact (is_newer_transitive "2" "1.5" "1.0.0.9-rc1" eq_refl eq_refl).
Defined.

(** X4.  Two versions that both parse and of which neither is newer than
    the other denote the same numbers: their components agree at every
    position once both are padded with zeros. *)
Theorem is_newer_trichotomy :
  forall (a b : string) (la lb : list Z),
    parse_version a = Ok la -> parse_version b = Ok lb ->
    _is_newer_version a b = Ok false -> _is_newer_version b a = Ok false ->
    forall i, Spec.component la i = Spec.component lb i.
Proof.
  intros a b la lb Ha Hb Hab Hba.
  destruct (is_newer_parsed a b la lb Ha Hb) as (r1 & Hr1 & Hiff1).
  destruct (is_newer_parsed b a lb la Hb Ha) as (r2 & Hr2 & Hiff2).
  apply padded_gt_total.
  - intros Hgt. apply Hiff1 in Hgt. congruence.
  - intros Hgt. apply Hiff2 in Hgt. congruence.
Qed.

Lemma is_newer_trichotomy_witness :
  Spec.component [1; 2] 3 = Spec.component [1; 2; 0; 0] 3.
Proof.
  exact (is_newer_trichotomy "1.2" "01.2.0.0-x" [1; 2] [1; 2; 0; 0]
           eq_refl eq_refl eq_refl eq_refl 3%nat).
Defined.

Section PaddingFacts.

Lemma split_app (sep : ascii) (a t : string) :
  PyStr.split sep (a +:+ String sep t) = PyStr.split sep a ++ PyStr.split sep t.
Proof.
  induction a as [|c a IH].
  - change ("" +:+ String sep t) with (String sep t).
    cbn [PyStr.split]. by rewrite Ascii.eqb_refl.
  - change (String c a +:+ String sep t) with (String c (a +:+ String sep t)).
    cbn [PyStr.split]. destruct (Ascii.eqb c sep); [by rewrite IH|].
    rewrite IH. by destruct (split_cons sep a) as (x & xs & ->).
Qed.

Lemma before_hyphen_app (a t : string) :
  Spec.before_hyphen (a +:+ t) =
  if Spec.no_char "-" a then a +:+ Spec.before_hyphen t
  else Spec.before_hyphen a.
Proof.
  induction a as [|c a IH]; [done|].
  change (String c a +:+ t) with (String c (a +:+ t)).
  cbn [Spec.before_hyphen Spec.no_char].
  destruct (Ascii.eqb c "-"); cbn [negb andb]; [done|].
  rewrite IH. by destruct (Spec.no_char "-" a).
Qed.

Lemma mapM_int_app (l1 l2 : list string) :
  mapM PyStr.int (l1 ++ l2) =
  (v1 ← mapM PyStr.int l1; v2 ← mapM PyStr.int l2; mret (v1 ++ v2)).
Proof.
  induction l1 as [|s l1 IH]; cbn [app mapM].
  - cbn. by destruct (mapM PyStr.int l2).
  - destruct (PyStr.int s); cbn; [|done]. rewrite IH.
    destruct (mapM PyStr.int l1); cbn; [|done].
    by destruct (mapM PyStr.int l2).
Qed.

(** A version with [.0] appended parses to the same numbers and one more
    zero, or to the same numbers when the [.0] lands in the suffix. *)
Lemma parse_version_dot_zero (a : string) :
  parse_version (a +:+ ".0") =
  if Spec.no_char "-" a then (l ← parse_version a; mret (l ++ [0]))
  else parse_version a.
Proof.
  rewrite !parse_version_segments. unfold Spec.segments.
  rewrite before_hyphen_app. destruct (Spec.no_char "-" a) eqn:Hno; [|done].
  rewrite (before_hyphen_id a Hno).
  change (a +:+ Spec.before_hyphen ".0") with (a +:+ String "." "0").
  rewrite split_app, mapM_int_app.
  destruct (mapM PyStr.int (PyStr.split "." a)); done.
Qed.

Lemma component_app_zero (l : list Z) (i : nat) :
  Spec.component (l ++ [0]) i = Spec.component l i.
Proof.
  unfold Spec.component.
  destruct (Nat.lt_ge_cases i (length l)) as [Hi|Hi].
  - by rewrite app_nth1.
  - rewrite app_nth2, (nth_overflow l) by lia.
    by destruct (i - length l)%nat as [|[|k]].
Qed.

Lemma padded_gt_app_zero_l (a b : list Z) :
  Spec.padded_gt (a ++ [0]) b <-> Spec.padded_gt a b.
Proof.
  rewrite !padded_gt_first_difference.
  by setoid_rewrite component_app_zero.
Qed.

Lemma padded_gt_app_zero_r (a b : list Z) :
  Spec.padded_gt a (b ++ [0]) <-> Spec.padded_gt a b.
Proof.
  rewrite !padded_gt_first_difference.
  by setoid_rewrite component_app_zero.
Qed.

Lemma bool_eq_iff (b1 b2 : bool) (P : Prop) :
  (b1 = true <-> P) -> (b2 = true <-> P) -> b1 = b2.
Proof. destruct b1, b2; intuition congruence. Qed.

End PaddingFacts.

(** X5.  A trailing [.0] changes no comparison, on either side and for
    every pair of strings: [1.2] and [1.2.0] are newer than the same
    versions and the same versions are newer than them. *)
Theorem trailing_zero_irrelevant :
  forall a b : string,
    _is_newer_version (a +:+ ".0") b = _is_newer_version a b /\
    _is_newer_version b (a +:+ ".0") = _is_newer_version b a.
Proof.
  intros a b. pose proof (parse_version_dot_zero a) as Hdot.
  destruct (Spec.no_char "-" a).
  - destruct (parse_version a) as [la|e] eqn:Ha; cbn in Hdot.
    + destruct (parse_version b) as [lb|e] eqn:Hb.
      * destruct (is_newer_parsed _ b _ lb Hdot Hb) as (r1 & -> & H1).
        destruct (is_newer_parsed a b la lb Ha Hb) as (r2 & -> & H2).
        destruct (is_newer_parsed b _ lb _ Hb Hdot) as (r3 & -> & H3).
        destruct (is_newer_parsed b a lb la Hb Ha) as (r4 & -> & H4).
        rewrite padded_gt_app_zero_l in H1. rewrite padded_gt_app_zero_r in H3.
        split; f_equal; eapply bool_eq_iff; eauto.
      * by rewrite !(is_newer_unparsed_right _ b e Hb),
             !(is_newer_unparsed_left b _ e Hb).
    + by rewrite (is_newer_unparsed_left _ b e Hdot),
           (is_newer_unparsed_left a b e Ha),
           (is_newer_unparsed_right b _ e Hdot),
           (is_newer_unparsed_right b a e Ha).
  - unfold _is_newer_version. by rewrite Hdot.
Qed.

Section SignFacts.

Lemma scan_digits_nonneg (s : string) :
  forall (acc : Z) (p : bool) (v : Z) (rest : string),
    PyStr.scan_digits s acc p = Some (v, rest) -> 0 <= acc -> 0 <= v.
Proof.
  induction s as [|c s IH]; intros acc p v rest; cbn [PyStr.scan_digits].
  - destruct p; [done|]. intros [= <- _]. done.
  - destruct (PyStr.digit_value c) as [d|] eqn:Hd.
    + intros H Hacc. apply (IH _ _ _ _ H).
      unfold PyStr.digit_value in Hd.
      destruct (_ && _) eqn:Hrange; [|done]. injection Hd as <-.
      apply andb_prop in Hrange as [Hlo _]. apply Nat.leb_le in Hlo. lia.
    + destruct (Ascii.eqb c "_"), p; try done.
      * intros H Hacc. by apply (IH _ _ _ _ H).
      * intros [= <- _]. done.
Qed.

Lemma skip_spaces_no_char (sep : ascii) (s : string) :
  Spec.no_char sep s = true -> Spec.no_char sep (PyStr.skip_spaces s) = true.
Proof.
  induction s as [|c s IH]; cbn [PyStr.skip_spaces]; [done|].
  destruct (PyStr.is_space c); [|done].
  cbn [Spec.no_char]. intros [_ Hs]%andb_prop. by apply IH.
Qed.

(** Without a hyphen in the text, [int] gives no negative number. *)
Lemma int_nonneg (s : string) (z : Z) :
  Spec.no_char "-" s = true -> PyStr.int s = Ok z -> 0 <= z.
Proof.
  intros Hno%(skip_spaces_no_char "-"). unfold PyStr.int, PyStr.split_sign.
  destruct (PyStr.skip_spaces s) as [|c s']; [done|].
  cbn [Spec.no_char] in Hno. apply andb_prop in Hno as [Hc _].
  apply negb_true_iff in Hc. rewrite Hc.
  destruct (Ascii.eqb c "+").
  - destruct s' as [|c' s'']; [done|].
    destruct (PyStr.digit_value c'); [|done].
    destruct (PyStr.scan_digits _ 0 false) as [[v rest]|] eqn:Hscan; [|done].
    destruct (_ <? _)%nat; [done|].
    destruct (PyStr.skip_spaces rest); [|done]. intros [= <-].
    by apply (scan_digits_nonneg _ _ _ _ _ Hscan).
  - destruct (PyStr.digit_value c); [|done].
    destruct (PyStr.scan_digits _ 0 false) as [[v rest]|] eqn:Hscan; [|done].
    destruct (_ <? _)%nat; [done|].
    destruct (PyStr.skip_spaces rest); [|done]. intros [= <-].
    by apply (scan_digits_nonneg _ _ _ _ _ Hscan).
Qed.

Lemma split_keeps_no_char (c sep : ascii) (s : string) :
  Spec.no_char c s = true ->
  Forall (fun x => Spec.no_char c x = true) (PyStr.split sep s).
Proof.
  induction s as [|d s IH]; cbn [Spec.no_char PyStr.split].
  - intros _. by repeat constructor.
  - intros [Hd Hs]%andb_prop. specialize (IH Hs).
    destruct (Ascii.eqb d sep); [by constructor|].
    destruct (PyStr.split sep s) as [|x xs].
    + constructor; [|constructor]. cbn [Spec.no_char]. by rewrite Hd.
    + apply Forall_cons in IH as [Hx Hxs]. constructor; [|done].
      cbn [Spec.no_char]. by rewrite Hd, Hx.
Qed.

Lemma before_hyphen_no_hyphen (v : string) :
  Spec.no_char "-" (Spec.before_hyphen v) = true.
Proof.
  induction v as [|c v IH]; cbn [Spec.before_hyphen]; [done|].
  destruct (Ascii.eqb c "-") eqn:Hc; [done|].
  cbn [Spec.no_char]. by rewrite Hc, IH.
Qed.

Lemma mapM_int_nonneg (segs : list string) (l : list Z) :
  Forall (fun x => Spec.no_char "-" x = true) segs ->
  mapM PyStr.int segs = Ok l -> Forall (fun z => 0 <= z) l.
Proof.
  intros Hsegs. revert l. induction Hsegs as [|s segs Hs _ IH]; intros l.
  - intros [= <-]. constructor.
  - cbn [mapM]. destruct (PyStr.int s) as [z|] eqn:Hz; cbn; [|done].
    destruct (mapM PyStr.int segs) as [zs|]; cbn; [|done].
    intros [= <-]. constructor; [by apply (int_nonneg s)|by apply IH].
Qed.

End SignFacts.

(** X6.  The numbers of a parsed version are never negative and there is
    at least one of them: the text is cut at the first hyphen before
    [int] sees it, so no minus sign reaches [int]. *)
Theorem parse_version_nonnegative :
  forall (v : string) (l : list Z),
    parse_version v = Ok l -> l <> [] /\ Forall (fun z => 0 <= z) l.
Proof.
  intros v l. rewrite parse_version_segments. unfold Spec.segments.
  intros Hparse. split.
  - destruct (split_cons "." (Spec.before_hyphen v)) as (x & xs & Hsplit).
    rewrite Hsplit in Hparse. cbn [mapM] in Hparse.
    destruct (PyStr.int x); cbn in Hparse; [|done].
    destruct (mapM PyStr.int xs); cbn in Hparse; [|done].
    by injection Hparse as <-.
  - eapply mapM_int_nonneg; [|exact Hparse].
    apply split_keeps_no_char, before_hyphen_no_hyphen.
Qed.

Lemma parse_version_nonnegative_witness :
  [3; 14; 0] <> [] /\ Forall (fun z => 0 <= z) [3; 14; 0].
Proof. exact (parse_version_nonnegative "+3. 14 .0-7" [3; 14; 0] eq_refl). Defined.

(** ** What the check returns *)

Section CheckInversion.

Context (self : HeliumUpdater) (w : world).

Let request : pyval :=
  _make_request self w (github_api_url self +:+ "/releases/latest").

(** An update is returned only along the one path of the method that
    builds it. *)
Lemma check_some_inv (info : gmap string pyval) :
  check_for_updates self w = Ok (Some info) ->
  exists release c assets i z,
    request = PDict release /\
    candidate_version (PDict release) = Ok c /\
    _is_newer_version c (current_version self) = Ok true /\
    PyVal.iter (default (PList []) (release !! "assets")) = Ok assets /\
    scan_assets (_get_architecture w) assets PNone PNone = Ok (i, z) /\
    PyVal.truthy (PyVal.or i z) = true /\
    info !! "version" = Some (PStr c) /\
    info !! "installer" = Some i /\
    info !! "zip_package" = Some z /\
    info !! "architecture" = Some (PStr (_get_architecture w)) /\
    dom info = Select.update_keys.
Proof.
  unfold check_for_updates. fold request.
  destruct request as [|b|n|s|l|release];
    try (destruct (PyVal.truthy _); discriminate).
  destruct (PyVal.truthy (PDict release)); [|discriminate].
  cbn [negb]. destruct (candidate_version (PDict release)) as [c|e] eqn:Hc;
    cbn [mbind result_bind]; [|discriminate].
  destruct (PyVal.truthy (PStr c)); [|discriminate]. cbn [negb].
  destruct (_is_newer_version c (current_version self)) as [[|]|e] eqn:Hnewer;
    cbn [mbind result_bind]; try discriminate.
  cbn [PyVal.get mbind result_bind].
  destruct (PyVal.iter _) as [assets|e] eqn:Hiter; cbn [mbind result_bind];
    [|discriminate].
  destruct (scan_assets _ assets PNone PNone) as [[i z]|e] eqn:Hscan;
    cbn [mbind result_bind]; [|discriminate].
  destruct (PyVal.truthy (PyVal.or i z)) eqn:Hor; [|discriminate].
  cbn [PyVal.get mbind result_bind mret result_ret]. intros [= <-].
  exists release, c, assets, i, z.
  split_and!; try done; try (by simplify_map_eq).
Qed.

(** The loop: what its two variables hold at the end is what they held
    at the start or an asset of the list with the right name. *)
Lemma scan_assets_inv (arch : string) (assets : list pyval) :
  forall i z i' z',
    scan_assets arch assets i z = Ok (i', z') ->
    (i' = i \/ (In i' assets /\ Select.installer_for arch i')) /\
    (z' = z \/ (In z' assets /\ Select.archive_for arch z')).
Proof.
  induction assets as [|a assets IH]; intros i z i' z'; cbn [scan_assets].
  - intros [= <- <-]. auto.
  - destruct a as [| | | | |d]; try discriminate. cbn [PyVal.get].
    destruct (d !! "name") as [v|] eqn:Hname;
      cbn [default mbind result_bind]; unfold id.
    + destruct v as [| | |n| |]; try discriminate.
      cbn [PyVal.lower mbind result_bind].
      destruct (arch_marker arch (PyStr.lower n)) eqn:Hmarker.
      * apply arch_marker_spec in Hmarker.
        destruct (PyStr.endswith "-installer.exe" (PyStr.lower n)) eqn:Hexe.
        { apply endswith_spec in Hexe. intros [[->|[Hin Hi]] Hz]%IH.
          - split; [|cbn; tauto]. right. split; [by left|].
            exists d, n. done.
          - split; [|cbn; tauto]. right. split; [by right|done]. }
        destruct (PyStr.endswith "-windows.zip" (PyStr.lower n)) eqn:Hzip.
        { apply endswith_spec in Hzip. intros [Hi [->|[Hin Hz]]]%IH.
          - split; [cbn; tauto|]. right. split; [by left|].
            exists d, n. done.
          - split; [cbn; tauto|]. right. split; [by right|done]. }
        intros H%IH. cbn. tauto.
      * intros H%IH. cbn. tauto.
    + cbn [PyVal.lower mbind result_bind PyStr.lower].
      assert (arch_marker arch "" = false) as -> by reflexivity.
      intros H%IH. cbn. tauto.
Qed.

End CheckInversion.

(** X7.  A request that fails, or that is answered by nothing (an empty
    object, [null], an empty list), makes [check_for_updates] return
    [None], for an updater as [__init__] builds it: the GET goes to
    [/repos/<owner>/<name>/releases/latest] of the API, with the updater's
    user agent and a timeout of 10, and no exception of it gets out. *)
Theorem check_for_updates_no_answer :
  forall (current owner name : string) (w : world),
    let self := __init__ current owner name in
    let answer :=
      w_get_json w
        (("https://api.github.com/repos/" +:+ owner +:+ "/" +:+ name)
           +:+ "/releases/latest")
        [("User-Agent", "Helium-Browser-Updater/" +:+ current);
         ("Accept", "application/vnd.github.v3+json")] 10 in
    ((exists e, answer = inl e) \/
     (exists v, answer = inr v /\ PyVal.truthy v = false)) ->
    check_for_updates self w = Ok None.
Proof.
  intros current owner name w self answer H.
  unfold check_for_updates, _make_request.
  change (w_get_json w _ _ 10) with answer.
  destruct H as [[e ->]|(v & -> & Hv)]; [done|]. by rewrite Hv.
Qed.

Lemma check_for_updates_no_answer_witness :
  check_for_updates (__init__ "1.0.0.0" "imputnet" "helium-windows")
    (Examples.offline "AMD64") = Ok None.
Proof.
  apply (check_for_updates_no_answer "1.0.0.0" "imputnet" "helium-windows"
           (Examples.offline "AMD64")).
  left. exists URLError. reflexivity.
Defined.

(** X8.  An updater whose own version does not parse (some segment of it
    is refused by [int]) never returns an update, whatever the release
    API answers. *)
Theorem unparsable_current_version_never_updates :
  forall (self : HeliumUpdater) (w : world) (seg : string),
    In seg (Spec.segments (current_version self)) ->
    (forall z, PyStr.int seg <> Ok z) ->
    forall info, check_for_updates self w <> Ok (Some info).
Proof.
  intros self w seg Hin Hbad info Hcheck.
  destruct (check_some_inv self w info Hcheck)
    as (release & c & assets & i & z & _ & _ & Hnewer & _).
  assert (Hparse : parse_version (current_version self) = Raise ValueError).
  { rewrite parse_version_segments. by apply (mapM_int_bad_segment _ seg). }
  rewrite (is_newer_unparsed_right c _ _ Hparse) in Hnewer. discriminate Hnewer.
Qed.

Lemma unparsable_current_version_never_updates_witness :
  In "dev" (Spec.segments "dev-build") /\
  check_for_updates (__init__ "dev-build" "imputnet" "helium-windows")
    (Examples.serving (Examples.offline "AMD64")
       (PDict Examples.mock_release))
  <> Ok (Some Examples.mock_update_info).
Proof.
  assert (Hin : In "dev" (Spec.segments "dev-build")) by (vm_compute; auto).
  split; [exact Hin|].
  apply (unparsable_current_version_never_updates
           (__init__ "dev-build" "imputnet" "helium-windows") _ "dev" Hin).
  intros z. discriminate.
Defined.

(** X9.  An update that [check_for_updates] returns is sound: its version
    is the candidate of the release and is newer than the current version,
    its architecture is the resolved one, at least one of its installer
    and archive entries is an asset, and it has the seven keys and no
    other. *)
Theorem returned_update_is_newer :
  forall (self : HeliumUpdater) (w : world) (info : gmap string pyval),
    check_for_updates self w = Ok (Some info) ->
    exists c i z,
      info !! "version" = Some (PStr c) /\
      _is_newer_version c (current_version self) = Ok true /\
      info !! "architecture" = Some (PStr (_get_architecture w)) /\
      info !! "installer" = Some i /\ info !! "zip_package" = Some z /\
      (PyVal.truthy i = true \/ PyVal.truthy z = true) /\
      dom info = Select.update_keys.
Proof.
  intros self w info Hcheck.
  destruct (check_some_inv self w info Hcheck)
    as (release & c & assets & i & z & _ & _ & Hnewer & _ & _ & Hor
        & Hversion & Hi & Hz & Harch & Hdom).
  exists c, i, z. rewrite truthy_or in Hor. apply orb_prop in Hor. done.
Qed.

Lemma returned_update_is_newer_witness :
  exists c i z,
    Examples.mock_update_info !! "version" = Some (PStr c) /\
    _is_newer_version c "1.0.0.0" = Ok true /\
    Examples.mock_update_info !! "architecture" = Some (PStr "x64") /\
    Examples.mock_update_info !! "installer" = Some i /\
    Examples.mock_update_info !! "zip_package" = Some z /\
    (PyVal.truthy i = true \/ PyVal.truthy z = true) /\
    dom Examples.mock_update_info = Select.update_keys.
Proof.
  refine (returned_update_is_newer Examples.updater
            (Examples.serving (Examples.offline "AMD64")
               (PDict Examples.mock_release))
            Examples.mock_update_info _).
  vm_cast_no_check (eq_refl (Ok (Some Examples.mock_update_info))).
Defined.

Section SelectionFacts.

Lemma scan_assets_app (arch : string) (l1 l2 : list pyval) :
  forall i z,
    scan_assets arch (l1 ++ l2) i z =
    (found ← scan_assets arch l1 i z; scan_assets arch l2 found.1 found.2).
Proof.
  induction l1 as [|a l1 IH]; intros i z; [done|].
  cbn [app scan_assets].
  destruct (PyVal.get a "name" (PStr "")) as [v|e]; cbn [mbind result_bind];
    [|done].
  destruct (PyVal.lower v) as [name|e]; cbn [mbind result_bind]; [|done].
  destruct (arch_marker arch name); [|apply IH].
  destruct (PyStr.endswith "-installer.exe" name); [apply IH|].
  destruct (PyStr.endswith "-windows.zip" name); apply IH.
Qed.

Lemma installer_for_spec (arch : string) (d : gmap string pyval) (n : string) :
  d !! "name" = Some (PStr n) ->
  Select.installer_for arch (PDict d) <->
  arch_marker arch (PyStr.lower n) = true /\
  PyStr.endswith "-installer.exe" (PyStr.lower n) = true.
Proof.
  intros Hn. rewrite arch_marker_spec, endswith_spec. split.
  - intros (d' & n' & [= <-] & Hn' & Hm & Hs).
    rewrite Hn in Hn'. by injection Hn' as <-.
  - intros [Hm Hs]. by exists d, n.
Qed.

(** Assets that are no installer for the architecture leave the
    installer variable of the loop as it is. *)
Lemma scan_assets_keeps_installer (arch : string) (assets : list pyval) :
  Forall Spec.asset_shaped assets ->
  Forall (fun b => ~ Select.installer_for arch b) assets ->
  forall i z, exists z', scan_assets arch assets i z = Ok (i, z').
Proof.
  induction 1 as [|a assets (d & -> & Hname) _ IH]; intros Hno i z.
  - by exists z.
  - apply Forall_cons in Hno as [Ha Hno]. specialize (IH Hno).
    cbn [scan_assets PyVal.get]. destruct Hname as [Hn|[n Hn]]; rewrite Hn.
    + cbn. apply IH.
    + cbn [default mbind result_bind PyVal.lower]. unfold id.
      cbn [PyVal.lower mbind result_bind].
      rewrite (installer_for_spec arch d n Hn) in Ha.
      destruct (arch_marker arch (PyStr.lower n)); [|apply IH].
      destruct (PyStr.endswith "-installer.exe" (PyStr.lower n));
        [by destruct Ha|].
      destruct (PyStr.endswith "-windows.zip" (PyStr.lower n)); apply IH.
Qed.

(** The check on a release with a newer tag, down to the loop. *)
Lemma check_newer_scan (self : HeliumUpdater) (w : world)
    (release : gmap string pyval) (tag : string) (assets : list pyval)
    (i z : pyval) :
  _make_request self w (github_api_url self +:+ "/releases/latest")
    = PDict release ->
  release !! "tag_name" = Some (PStr tag) ->
  _is_newer_version (PyStr.lstrip "v" tag) (current_version self) = Ok true ->
  default (PList []) (release !! "assets") = PList assets ->
  scan_assets (_get_architecture w) assets PNone PNone = Ok (i, z) ->
  PyVal.truthy (PyVal.or i z) = true ->
  exists info, check_for_updates self w = Ok (Some info) /\
    info !! "installer" = Some i /\ info !! "zip_package" = Some z.
Proof.
  intros Hreq Htag Hnewer Hassets Hscan Hor. unfold check_for_updates.
  rewrite Hreq, (truthy_dict_lookup _ _ _ Htag).
  rewrite (candidate_version_tag _ _ Htag). cbn [negb mbind result_bind].
  destruct (PyStr.lstrip "v" tag) as [|c rest] eqn:Hcand.
  { by rewrite is_newer_empty in Hnewer. }
  cbn [PyVal.truthy String.eqb negb]. rewrite Hnewer.
  cbn [mbind result_bind PyVal.get]. rewrite Hassets.
  cbn [PyVal.iter mbind result_bind]. rewrite Hscan.
  cbn [mbind result_bind]. rewrite Hor.
  eexists. split; [reflexivity|]. split; by simplify_map_eq.
Qed.

End SelectionFacts.

(** X10.  The installer and the archive of a returned update come from
    the release: each is [None] or an asset of the release's list whose
    name, lower-cased, carries the marker of the resolved architecture
    and ends in [-installer.exe], respectively [-windows.zip]. *)
Theorem selected_assets_belong :
  forall (self : HeliumUpdater) (w : world) (release : gmap string pyval)
         (assets : list pyval) (info : gmap string pyval),
    _make_request self w (github_api_url self +:+ "/releases/latest")
      = PDict release ->
    release !! "assets" = Some (PList assets) ->
    check_for_updates self w = Ok (Some info) ->
    (info !! "installer" = Some PNone \/
     exists a, info !! "installer" = Some a /\ In a assets /\
       Select.installer_for (_get_architecture w) a) /\
    (info !! "zip_package" = Some PNone \/
     exists a, info !! "zip_package" = Some a /\ In a assets /\
       Select.archive_for (_get_architecture w) a).
Proof.
  intros self w release assets info Hreq Hassets Hcheck.
  destruct (check_some_inv self w info Hcheck)
    as (release' & c & assets' & i & z & Hreq' & _ & _ & Hiter & Hscan & _
        & _ & Hi & Hz & _).
  rewrite Hreq in Hreq'. injection Hreq' as <-.
  rewrite Hassets in Hiter. cbn in Hiter. injection Hiter as <-.
  destruct (scan_assets_inv _ _ _ _ _ _ Hscan) as [[->|Hinst] [->|Harch]];
    split; eauto.
Qed.

Lemma selected_assets_belong_witness :
  let w := Examples.serving (Examples.offline "AMD64")
             (PDict Examples.mock_release) in
  let assets := [PDict Examples.mock_installer; PDict Examples.mock_zip] in
  (Examples.mock_update_info !! "installer" = Some PNone \/
   exists a, Examples.mock_update_info !! "installer" = Some a /\
     In a assets /\ Select.installer_for (_get_architecture w) a) /\
  (Examples.mock_update_info !! "zip_package" = Some PNone \/
   exists a, Examples.mock_update_info !! "zip_package" = Some a /\
     In a assets /\ Select.archive_for (_get_architecture w) a).
Proof.
  intros w assets.
  refine (selected_assets_belong Examples.updater w Examples.mock_release
            assets Examples.mock_update_info eq_refl eq_refl _).
  vm_cast_no_check (eq_refl (Ok (Some Examples.mock_update_info))).
Defined.

(** X11.  When several assets of a release are installers for the
    architecture, the last one in the list is the one returned. *)
Theorem last_installer_wins :
  forall (self : HeliumUpdater) (w : world) (release : gmap string pyval)
         (tag : string) (pre post : list pyval) (a : pyval),
    _make_request self w (github_api_url self +:+ "/releases/latest")
      = PDict release ->
    release !! "tag_name" = Some (PStr tag) ->
    _is_newer_version (PyStr.lstrip "v" tag) (current_version self)
      = Ok true ->
    default (PList []) (release !! "assets") = PList (pre ++ a :: post) ->
    Forall Spec.asset_shaped (pre ++ a :: post) ->
    Select.installer_for (_get_architecture w) a ->
    Forall (fun b => ~ Select.installer_for (_get_architecture w) b) post ->
    exists info, check_for_updates self w = Ok (Some info) /\
      info !! "installer" = Some a.
Proof.
  intros self w release tag pre post a Hreq Htag Hnewer Hassets Hshaped
    Ha Hpost.
  apply Forall_app in Hshaped as [Hpre Hrest].
  apply Forall_cons in Hrest as [_ Hshaped_post].
  destruct (scan_assets_spec (_get_architecture w) pre Hpre PNone PNone)
    as (i1 & z1 & Hscan_pre & _).
  destruct (scan_assets_keeps_installer _ post Hshaped_post Hpost a z1)
    as [z' Hscan_post].
  assert (Hscan : scan_assets (_get_architecture w) (pre ++ a :: post)
                    PNone PNone = Ok (a, z')).
  { rewrite scan_assets_app, Hscan_pre. cbn [mbind result_bind fst snd].
    destruct Ha as (d & n & -> & Hn & Hm & Hs).
    cbn [scan_assets PyVal.get]. rewrite Hn.
    cbn [default mbind result_bind]. unfold id.
    cbn [PyVal.lower mbind result_bind].
    apply arch_marker_spec in Hm as ->. apply endswith_spec in Hs as ->.
    exact Hscan_post. }
  assert (Hor : PyVal.truthy (PyVal.or a z') = true).
  { rewrite truthy_or. destruct Ha as (d & n & -> & Hn & _).
    by rewrite (truthy_dict_lookup _ _ _ Hn). }
  destruct (check_newer_scan self w release tag _ a z'
              Hreq Htag Hnewer Hassets Hscan Hor) as (info & Hinfo & Hi & _).
  eauto.
Qed.

Lemma last_installer_wins_witness :
  let w := Examples.serving (Examples.offline "AMD64")
             (PDict MoreExamples.two_installers) in
  exists info, check_for_updates Examples.updater w = Ok (Some info) /\
    info !! "installer" = Some (MoreExamples.named "new_X64-Installer.EXE").
Proof.
  intros w.
  refine (last_installer_wins Examples.updater w MoreExamples.two_installers
            "v2.0"
            [MoreExamples.named "old_x64-installer.exe";
             MoreExamples.named "h_x64-windows.zip"]
            [] (MoreExamples.named "new_X64-Installer.EXE")
            eq_refl eq_refl eq_refl eq_refl _ _ _).
  - repeat constructor;
      (eexists; split; [reflexivity|]; right; eexists; reflexivity).
  - eexists _, _. split; [reflexivity|]. split; [reflexivity|].
    split.
    + left. exists "new", "installer.exe". reflexivity.
    + exists "new_x64". reflexivity.
  - constructor.
Defined.

(** X12.  On a release shaped as the API documents it (the tag, if any,
    a string; the assets, if any, a list of objects whose names are
    strings) [check_for_updates] raises nothing, whether the release is
    newer or not and whatever else it holds. *)
Theorem check_for_updates_no_exception :
  forall (self : HeliumUpdater) (w : world) (release : gmap string pyval),
    _make_request self w (github_api_url self +:+ "/releases/latest")
      = PDict release ->
    Select.release_shaped release ->
    exists r, check_for_updates self w = Ok r.
Proof.
  intros self w release Hreq [Htag Hassets]. unfold check_for_updates.
  rewrite Hreq. destruct (PyVal.truthy (PDict release)); [|by eexists].
  cbn [negb].
  assert (Hcand : exists c, candidate_version (PDict release) = Ok c).
  { unfold candidate_version. cbn [PyVal.get mbind result_bind].
    destruct Htag as [->|[tag ->]]; by eexists. }
  destruct Hcand as [c ->]. cbn [mbind result_bind].
  destruct (PyVal.truthy (PStr c)); [|by eexists]. cbn [negb].
  destruct (is_newer_total c (current_version self)) as [[|] ->];
    cbn [mbind result_bind]; [|by eexists].
  cbn [PyVal.get mbind result_bind].
  destruct Hassets as [->|(assets & -> & Hshaped)].
  - by eexists.
  - cbn [default PyVal.iter mbind result_bind]. unfold id.
    cbn [PyVal.iter mbind result_bind].
    destruct (scan_assets_spec (_get_architecture w) assets Hshaped
                PNone PNone) as (i & z & -> & _).
    cbn [mbind result_bind].
    destruct (PyVal.truthy (PyVal.or i z)); by eexists.
Qed.

Lemma check_for_updates_no_exception_witness :
  exists r,
    check_for_updates Examples.updater
      (Examples.serving (Examples.offline "AMD64")
         (PDict MoreExamples.bare_release)) = Ok r.
Proof.
  refine (check_for_updates_no_exception Examples.updater
            (Examples.serving (Examples.offline "AMD64")
               (PDict MoreExamples.bare_release))
            MoreExamples.bare_release eq_refl _).
  split; left; reflexivity.
Defined.

(** ** What a download does to the files *)

Section LoopFacts.

Context (w : world) (path : string) (cb : option callback) (total : Z).

(** The loop writes to its own file only. *)
Lemma read_loop_frame (reads : list (exn + list byte)) :
  forall (downloaded : Z) (n : nat) (st st' : state) (r : result unit),
    read_loop w path cb total reads downloaded n st = (r, st') ->
    forall p, p <> path -> st_fs st' !! p = st_fs st !! p.
Proof.
  induction reads as [|[e|[|b c]] reads IH];
    intros downloaded n st st' r Hrun p Hp; cbn [read_loop] in Hrun;
    try (by injection Hrun as <- <-).
  unfold mbind, M_bind in Hrun. unfold file_write in Hrun at 1.
  destruct (w_write_fault w n) as [e|]; [by injection Hrun as <- <-|].
  match type of Hrun with
  | context [match ?m ?s with _ => _ end] =>
      destruct (m s) as [[[]|e] st1] eqn:Hcall
  end.
  - apply IH with (p := p) in Hrun; [|done]. rewrite Hrun.
    assert (st_fs st1 = <[path := default [] (st_fs st !! path) ++ b :: c]>
                          (st_fs st)) as ->.
    { destruct cb as [f|]; [destruct (0 <? total)|];
        unfold call_progress, mbind, M_bind, emit, raise, mret, M_ret in Hcall;
        cbn [st_fs st_trace] in Hcall;
        try destruct (f _ _); by simplify_eq. }
    by rewrite lookup_insert_ne.
  - injection Hrun as <- <-.
    assert (st_fs st1 = <[path := default [] (st_fs st !! path) ++ b :: c]>
                          (st_fs st)) as ->.
    { destruct cb as [f|]; [destruct (0 <? total)|];
        unfold call_progress, mbind, M_bind, emit, raise, mret, M_ret in Hcall;
        cbn [st_fs st_trace] in Hcall;
        try destruct (f _ _); by simplify_eq. }
    by rewrite lookup_insert_ne.
Qed.

(** Without a callback, or without a positive total, the loop calls
    nothing. *)
Lemma read_loop_quiet (reads : list (exn + list byte)) :
  cb = None \/ total <= 0 ->
  forall (downloaded : Z) (n : nat) (st st' : state) (r : result unit),
    read_loop w path cb total reads downloaded n st = (r, st') ->
    exists tr, st_trace st' = st_trace st ++ tr /\ Spec.progress_calls tr = [].
Proof.
  intros Hquiet.
  assert (Hskip : forall d,
            match cb with
            | Some f => if 0 <? total then call_progress f d total else mret tt
            | None => mret tt
            end = mret tt).
  { intros d. destruct Hquiet as [->|Hle]; [done|].
    destruct cb; [|done]. by destruct (Z.ltb_spec 0 total); [lia|]. }
  induction reads as [|[e|[|b c]] reads IH];
    intros downloaded n st st' r Hrun; cbn [read_loop] in Hrun;
    try (injection Hrun as <- <-; exists []; by rewrite app_nil_r).
  rewrite Hskip in Hrun.
  unfold mbind, M_bind, mret, M_ret in Hrun. unfold file_write in Hrun at 1.
  destruct (w_write_fault w n) as [e|].
  { injection Hrun as <- <-. exists []. by rewrite app_nil_r. }
  apply IH in Hrun as (tr & Htr & Hcalls). cbn [st_trace] in Htr.
  exists (EvWrite path (b :: c) :: tr).
  split; [by rewrite Htr, <- app_assoc|]. exact Hcalls.
Qed.

(** With no refused write, a stream that reaches its end and a callback
    that does not raise, the loop appends every block to the file. *)
Lemma read_loop_success (reads : list (exn + list byte)) :
  (forall n, w_write_fault w n = None) ->
  Select.stream_intact reads = true ->
  Select.callback_quiet cb ->
  forall (downloaded : Z) (n : nat) (st : state) (old : list byte),
    st_fs st !! path = Some old ->
    exists st',
      read_loop w path cb total reads downloaded n st = (Ok tt, st') /\
      st_fs st' = <[path := old ++ concat (Spec.stream_chunks reads)]>
                    (st_fs st).
Proof.
  intros Hwrite Hintact Hquiet.
  induction reads as [|[e|[|b c]] reads IH];
    intros downloaded n st old Hold; cbn [read_loop Spec.stream_chunks concat];
    cbn [Select.stream_intact] in Hintact; try discriminate Hintact;
    try (exists st; split; [done|];
         by rewrite app_nil_r, insert_id).
  unfold mbind, M_bind. unfold file_write at 1. rewrite Hwrite, Hold.
  cbn [default]. unfold id.
  set (st1 := {| st_fs := <[path := old ++ b :: c]> (st_fs st);
                 st_trace := st_trace st ++ [EvWrite path (b :: c)] |}).
  assert (Hcall : exists st2,
            match cb with
            | Some f =>
                if 0 <? total
                then call_progress f (downloaded + Z.of_nat (length (b :: c)))
                       total
                else mret tt
            | None => mret tt
            end st1 = (Ok tt, st2) /\ st_fs st2 = st_fs st1).
  { destruct cb as [f|]; [|by exists st1].
    destruct (0 <? total); [|by exists st1].
    unfold call_progress, mbind, M_bind, emit, mret, M_ret.
    rewrite (Hquiet _ _). by eexists. }
  destruct Hcall as (st2 & -> & Hfs2).
  destruct (IH Hintact (downloaded + Z.of_nat (length (b :: c))) (S n) st2
              (old ++ b :: c)) as (st' & -> & Hfs').
  { rewrite Hfs2. cbn [st1 st_fs]. apply lookup_insert_eq. }
  exists st'. split; [done|]. rewrite Hfs', Hfs2. cbn [st1 st_fs].
  rewrite insert_insert_eq. f_equal.
  by rewrite <- app_assoc.
Qed.

End LoopFacts.

Section TransferEffects.

Context (self : HeliumUpdater) (w : world).

Lemma transfer_frame (url : pyval) (path : string) (cb : option callback)
    (st st' : state) (r : result (option string)) :
  transfer self w url path cb st = (r, st') ->
  forall p, p <> path -> st_fs st' !! p = st_fs st !! p.
Proof.
  intros Hrun p Hp. unfold transfer, mbind, M_bind, lift, emit in Hrun.
  destruct url as [| | |u| |]; try (by injection Hrun as <- <-).
  cbn [st_fs st_trace] in Hrun.
  destruct (w_urlopen w u _ 30) as [e|resp]; [by injection Hrun as <- <-|].
  destruct (content_length resp) as [total|e]; [|by injection Hrun as <- <-].
  unfold open_wb in Hrun. cbn [st_fs st_trace] in Hrun.
  destruct (w_open_fault w path) as [e|]; [by injection Hrun as <- <-|].
  destruct (read_loop w path cb total (resp_reads resp) 0 0%nat _)
    as [r2 st2] eqn:Hloop.
  apply read_loop_frame with (p := p) in Hloop; [|done].
  cbn [st_fs] in Hloop. rewrite lookup_insert_ne in Hloop by done.
  destruct r2 as [[]|e]; by injection Hrun as <- <-.
Qed.

Lemma transfer_quiet (url : pyval) (path : string) (cb : option callback)
    (st st' : state) (r : result (option string)) :
  (cb = None \/
   forall u headers timeout resp total,
     w_urlopen w u headers timeout = inr resp ->
     content_length resp = Ok total -> total <= 0) ->
  transfer self w url path cb st = (r, st') ->
  exists tr, st_trace st' = st_trace st ++ tr /\ Spec.progress_calls tr = [].
Proof.
  intros Hquiet Hrun. unfold transfer, mbind, M_bind, lift, emit in Hrun.
  destruct url as [| | |u| |];
    try (injection Hrun as <- <-; exists []; by rewrite app_nil_r).
  cbn [st_fs st_trace] in Hrun.
  destruct (w_urlopen w u _ 30) as [e|resp] eqn:Hopen.
  { injection Hrun as <- <-. by eexists [_]. }
  destruct (content_length resp) as [total|e] eqn:Hlen.
  2: { injection Hrun as <- <-. by eexists [_]. }
  unfold open_wb in Hrun. cbn [st_fs st_trace] in Hrun.
  destruct (w_open_fault w path) as [e|].
  { injection Hrun as <- <-. by eexists [_]. }
  destruct (read_loop w path cb total (resp_reads resp) 0 0%nat _)
    as [r2 st2] eqn:Hloop.
  apply read_loop_quiet in Hloop as (tr & Htr & Hcalls).
  2: { destruct Hquiet as [->|Hle]; [by left|right]. eauto. }
  cbn [st_trace] in Htr.
  exists (EvUrlopen u [("User-Agent", user_agent self)] 30 :: EvOpen path :: tr).
  split; [|exact Hcalls].
  destruct r2 as [[]|e]; injection Hrun as <- <-;
    by rewrite Htr, <- !app_assoc.
Qed.

Lemma transfer_success (url path : string) (cb : option callback)
    (resp : response) (total : Z) (st : state) :
  w_urlopen w url [("User-Agent", user_agent self)] 30 = inr resp ->
  content_length resp = Ok total ->
  w_open_fault w path = None ->
  (forall n, w_write_fault w n = None) ->
  Select.stream_intact (resp_reads resp) = true ->
  Select.callback_quiet cb ->
  exists st',
    transfer self w (PStr url) path cb st = (Ok (Some path), st') /\
    st_fs st' =
      <[path := concat (Spec.stream_chunks (resp_reads resp))]> (st_fs st).
Proof.
  intros Hopen Hlen Hfault Hwrite Hintact Hquiet.
  unfold transfer, mbind, M_bind, lift, emit. rewrite Hopen, Hlen.
  unfold open_wb. rewrite Hfault. cbn [st_fs st_trace].
  edestruct (read_loop_success w path cb total (resp_reads resp)
               Hwrite Hintact Hquiet 0 0%nat) as (st' & -> & Hfs).
  { cbn [st_fs]. apply lookup_insert_eq. }
  exists st'. split; [done|]. rewrite Hfs. cbn [st_fs app].
  by rewrite insert_insert_eq.
Qed.

(** Where the host lets the handler work, the [try] statement of the
    download raises nothing. *)
Lemma try_transfer_returns (url : pyval) (path : string)
    (cb : option callback) (st : state) :
  Select.handler_safe w path ->
  exists v st',
    try_except_M (transfer self w url path cb) any_Exception
      (download_failed w path) st = (Ok v, st').
Proof.
  intros Hsafe. unfold try_except_M.
  destruct (transfer self w url path cb st) as [[v|e] st1]; [by eexists _, _|].
  cbn [any_Exception].
  destruct (download_failed_spec w path e st1 Hsafe) as (post & -> & _).
  by eexists _, _.
Qed.

(** The ways through [download_update]: nothing to download, an
    exception before the [try] statement, or the [try] statement. *)
Lemma download_update_cases (info : gmap string pyval)
    (cb : option callback) (st : state) :
  (download_update self w info cb st = (Ok None, st)) \/
  (exists e, download_update self w info cb st = (Raise e, st) /\
     (e = AttributeError \/ e = TypeError) /\
     Select.target_path w info = None) \/
  (exists asset url name,
     select_asset info = PDict asset /\
     asset !! "browser_download_url" = Some url /\
     PyVal.truthy url = true /\
     asset !! "name" = Some (PStr name) /\
     Select.target_path w info = Some (w_path_join w (w_tempdir w) name) /\
     download_update self w info cb st =
       try_except_M
         (transfer self w url (w_path_join w (w_tempdir w) name) cb)
         any_Exception
         (download_failed w (w_path_join w (w_tempdir w) name)) st).
Proof.
  unfold download_update, Select.target_path.
  destruct (PyVal.truthy (select_asset info)) eqn:Hasset; [|by left].
  cbn [negb].
  destruct (select_asset info) as [| | | | |asset] eqn:Hsel;
    try (right; left; eexists; split; [reflexivity|]; by auto).
  cbn [PyVal.get]. unfold mbind, M_bind, lift.
  destruct (asset !! "browser_download_url") as [url|] eqn:Hurl;
    cbn [default]; unfold id; [|by left].
  destruct (PyVal.truthy url) eqn:Htruthy; [|by left]. cbn [negb].
  destruct (asset !! "name") as [[| | |name| |]|] eqn:Hname;
    cbn [default local_path_of]; unfold id; cbn [local_path_of];
    try (right; left; eexists; split; [reflexivity|]; by auto).
  right. right. exists asset, url, name.
  rewrite Hname. by split_and!.
Qed.

End TransferEffects.

(** X13.  A download that nothing disturbs (the request is answered, the
    [Content-Length], if any, is a number, the file can be opened and
    written, the stream reaches its end before any exception, the
    callback does not raise) returns the path of the file, and the file
    then holds exactly the blocks of the stream, one after another,
    whatever was at that path before; the other files are as they were. *)
Theorem download_update_writes_stream :
  forall (self : HeliumUpdater) (w : world) (info asset : gmap string pyval)
         (url name : string) (cb : option callback) (resp : response)
         (total : Z) (st : state),
    select_asset info = PDict asset ->
    asset !! "browser_download_url" = Some (PStr url) -> url <> "" ->
    asset !! "name" = Some (PStr name) ->
    w_urlopen w url [("User-Agent", user_agent self)] 30 = inr resp ->
    content_length resp = Ok total ->
    w_open_fault w (w_path_join w (w_tempdir w) name) = None ->
    (forall n, w_write_fault w n = None) ->
    Select.stream_intact (resp_reads resp) = true ->
    Select.callback_quiet cb ->
    exists st',
      download_update self w info cb st
        = (Ok (Some (w_path_join w (w_tempdir w) name)), st') /\
      st_fs st' =
        <[w_path_join w (w_tempdir w) name :=
            concat (Spec.stream_chunks (resp_reads resp))]> (st_fs st).
Proof.
  intros self w info asset url name cb resp total st
    Hsel Hurl Hne Hname Hopen Hlen Hfault Hwrite Hintact Hquiet.
  rewrite (download_update_selected self w info asset (PStr url) name cb st
             Hsel Hurl); [|by destruct url|exact Hname].
  unfold try_except_M.
  destruct (transfer_success self w url _ cb resp total st
              Hopen Hlen Hfault Hwrite Hintact Hquiet) as (st' & -> & Hfs).
  by exists st'.
Qed.

Lemma download_update_writes_stream_witness :
  let w := Examples.streaming (Examples.offline "AMD64") Examples.ten_bytes in
  exists st',
    download_update Examples.updater w MoreExamples.small_update None
      MoreExamples.stale_state = (Ok (Some "/tmp/i.exe"), st') /\
    st_fs st' =
      <["/tmp/i.exe" :=
          concat (Spec.stream_chunks (resp_reads Examples.ten_bytes))]>
        (st_fs MoreExamples.stale_state).
Proof.
  intros w.
  refine (download_update_writes_stream Examples.updater w
            MoreExamples.small_update
            (<["name" := PStr "i.exe"]>
             (<["browser_download_url" := PStr "http://h/i"]> ∅))
            "http://h/i" "i.exe" None Examples.ten_bytes 10
            MoreExamples.stale_state _ _ _ _ _ _ _ _ _ _).
  - vm_compute; reflexivity.
  - vm_compute; reflexivity.
  - discriminate.
  - vm_compute; reflexivity.
  - reflexivity.
  - vm_compute; reflexivity.
  - reflexivity.
  - reflexivity.
  - reflexivity.
  - exact I.
Defined.

(** X14.  The progress callback is never called when none is given, nor
    when no response declares a positive length (no [Content-Length]
    header, or a length of zero or less): the download then goes on in
    silence, whatever its outcome and whatever update it is given. *)
Theorem progress_callback_silent :
  forall (self : HeliumUpdater) (w : world) (info : gmap string pyval)
         (cb : option callback) (st st' : state)
         (r : result (option string)),
    (cb = None \/
     forall u headers timeout resp total,
       w_urlopen w u headers timeout = inr resp ->
       content_length resp = Ok total -> total <= 0) ->
    download_update self w info cb st = (r, st') ->
    exists tr, st_trace st' = st_trace st ++ tr /\ Spec.progress_calls tr = [].
Proof.
  intros self w info cb st st' r Hquiet Hrun.
  destruct (download_update_cases self w info cb st)
    as [H|[(e & H & _)|(asset & url & name & _ & _ & _ & _ & _ & H)]];
    rewrite H in Hrun.
  - injection Hrun as <- <-. exists []. by rewrite app_nil_r.
  - injection Hrun as <- <-. exists []. by rewrite app_nil_r.
  - unfold try_except_M in Hrun.
    destruct (transfer self w url _ cb st) as [r1 st1] eqn:Ht.
    apply (transfer_quiet self w _ _ _ _ _ _ Hquiet) in Ht
      as (tr & Htr & Hcalls).
    destruct r1 as [v|e].
    + injection Hrun as <- <-. eauto.
    + cbn [any_Exception] in Hrun.
      destruct (download_failed_effects w _ e st1 st' r Hrun)
        as (post & Hfail & Hpost & _).
      exists (tr ++ post). split; [by rewrite Hfail, Htr, <- app_assoc|].
      unfold Spec.progress_calls in *. rewrite omap_app, Hcalls.
      fold (Spec.progress_calls post).
      by rewrite <- progress_calls_io, Hpost.
Qed.

Lemma progress_callback_silent_witness :
  let w := Examples.streaming (Examples.offline "AMD64")
             MoreExamples.unsized in
  let run := download_update Examples.updater w MoreExamples.small_update
               (Some Examples.silent) Examples.empty_state in
  run.1 = Ok (Some "/tmp/i.exe") /\
  exists tr,
    st_trace run.2 = st_trace Examples.empty_state ++ tr /\
    Spec.progress_calls tr = [].
Proof.
  intros w run. split; [reflexivity|].
  apply (progress_callback_silent Examples.updater w
           MoreExamples.small_update (Some Examples.silent)
           Examples.empty_state run.2 run.1).
  - right. intros u headers timeout resp total [= <-] [= <-]. lia.
  - apply surjective_pairing.
Defined.

(** X15.  An exception leaves [download_update] in two ways only: from
    before the [try] statement, and then no request was made and no file
    touched; or out of the handler, after the transfer raised, on a host
    that does not let the handler test or delete the target.  Where the
    host lets the handler work, the [try] statement raises nothing,
    whatever the URL, the callback and the files. *)
Theorem download_update_raises_before_transfer :
  forall (self : HeliumUpdater) (w : world) (info : gmap string pyval)
         (cb : option callback) (st : state),
    (forall e st', download_update self w info cb st = (Raise e, st') ->
       st' = st \/
       exists p url e1 st1,
         Select.target_path w info = Some p /\
         ~ Select.handler_safe w p /\
         transfer self w url p cb st = (Raise e1, st1) /\
         download_failed w p e1 st1 = (Raise e, st')) /\
    (forall url p, Select.handler_safe w p ->
       exists v st',
         try_except_M (transfer self w url p cb) any_Exception
           (download_failed w p) st = (Ok v, st')).
Proof.
  intros self w info cb st.
  split; [|intros url p Hsafe; by apply try_transfer_returns].
  destruct (download_update_cases self w info cb st)
    as [H|[(e & H & _)|(asset & url & name & _ & _ & _ & _ & Hsome & H)]];
    rewrite H.
  - intros e st' [=].
  - intros e' st' [= <- <-]. by left.
  - intros e st' Hrun. right. unfold try_except_M in Hrun.
    destruct (transfer self w url _ cb st) as [[v|e1] st1] eqn:Ht; [done|].
    cbn [any_Exception] in Hrun.
    exists (w_path_join w (w_tempdir w) name), url, e1, st1.
    split; [done|]. split; [|done]. intros Hsafe.
    destruct (download_failed_spec w _ e1 st1 Hsafe) as (post & Hok & _).
    congruence.
Qed.

Lemma download_update_raises_before_transfer_witness :
  let w := Faults.locking_host in
  let run := download_update Examples.updater w MoreExamples.small_update
               None Examples.empty_state in
  run.1 = Raise OSError /\
  (run.2 = Examples.empty_state \/
   exists p url e1 st1,
     Select.target_path w MoreExamples.small_update = Some p /\
     ~ Select.handler_safe w p /\
     transfer Examples.updater w url p None Examples.empty_state
       = (Raise e1, st1) /\
     download_failed w p e1 st1 = (Raise OSError, run.2)).
Proof.
  intros w run.
  assert (Hraise : run.1 = Raise OSError) by (vm_compute; reflexivity).
  split; [exact Hraise|].
  apply (proj1 (download_update_raises_before_transfer Examples.updater w
                  MoreExamples.small_update None Examples.empty_state)).
  rewrite <- Hraise. apply surjective_pairing.
Defined.

(** X16.  Whatever its outcome, a download leaves every file but its own
    target alone. *)
Theorem download_update_frame :
  forall (self : HeliumUpdater) (w : world) (info : gmap string pyval)
         (cb : option callback) (st st' : state)
         (r : result (option string)) (p : string),
    download_update self w info cb st = (r, st') ->
    Select.target_path w info <> Some p ->
    st_fs st' !! p = st_fs st !! p.
Proof.
  intros self w info cb st st' r p Hrun Hp.
  destruct (download_update_cases self w info cb st)
    as [H|[(e & H & _)|(asset & url & name & _ & _ & _ & _ & Hsome & H)]];
    rewrite H in Hrun; try (by injection Hrun as <- <-).
  assert (Hne : p <> w_path_join w (w_tempdir w) name) by congruence.
  unfold try_except_M in Hrun.
  destruct (transfer self w url _ cb st) as [r1 st1] eqn:Ht.
  apply transfer_frame with (p := p) in Ht; [|done].
  destruct r1 as [v|e].
  - by injection Hrun as <- <-.
  - cbn [any_Exception] in Hrun.
    destruct (download_failed_effects w _ e st1 st' r Hrun)
      as (post & _ & _ & [->| ->]); [done|].
    by rewrite lookup_delete_ne.
Qed.

Lemma download_update_frame_witness :
  let w := Examples.streaming (Examples.offline "AMD64") Examples.broken in
  let run := download_update Examples.updater w MoreExamples.small_update
               None MoreExamples.stale_state in
  run.1 = Ok None /\
  st_fs run.2 !! "/tmp/keep" = st_fs MoreExamples.stale_state !! "/tmp/keep".
Proof.
  intros w run. split; [reflexivity|].
  apply (download_update_frame Examples.updater w MoreExamples.small_update
           None MoreExamples.stale_state run.2 run.1 "/tmp/keep").
  - apply surjective_pairing.
  - vm_compute. discriminate.
Defined.

(** X17.  A download that fails before it opens its file (the request is
    refused, or the [Content-Length] is no number) still deletes what is
    at the target path, where the host lets the handler test and delete
    it: a file left there by an earlier download is gone, and [None] is
    returned. *)
Theorem failed_request_removes_stale_file :
  forall (self : HeliumUpdater) (w : world) (info asset : gmap string pyval)
         (url name : string) (cb : option callback) (st : state),
    select_asset info = PDict asset ->
    asset !! "browser_download_url" = Some (PStr url) -> url <> "" ->
    asset !! "name" = Some (PStr name) ->
    Select.handler_safe w (w_path_join w (w_tempdir w) name) ->
    ((exists e, w_urlopen w url [("User-Agent", user_agent self)] 30 = inl e) \/
     (exists resp e,
        w_urlopen w url [("User-Agent", user_agent self)] 30 = inr resp /\
        content_length resp = Raise e)) ->
    exists st',
      download_update self w info cb st = (Ok None, st') /\
      st_fs st' = delete (w_path_join w (w_tempdir w) name) (st_fs st) /\
      Spec.io_events (drop (length (st_trace st)) (st_trace st')) = [].
Proof.
  intros self w info asset url name cb st Hsel Hurl Hne Hname Hsafe Hfail.
  rewrite (download_update_selected self w info asset (PStr url) name cb st
             Hsel Hurl); [|by destruct url|exact Hname].
  unfold try_except_M.
  assert (Ht : exists e,
            transfer self w (PStr url) (w_path_join w (w_tempdir w) name) cb st
            = (Raise e,
               {| st_fs := st_fs st;
                  st_trace := st_trace st ++
                    [EvUrlopen url [("User-Agent", user_agent self)] 30] |})).
  { unfold transfer, mbind, M_bind, lift, emit.
    destruct Hfail as [[e ->]|(resp & e & -> & ->)]; by exists e. }
  destruct Ht as [e ->]. cbn [any_Exception].
  destruct (download_failed_spec w (w_path_join w (w_tempdir w) name) e
              {| st_fs := st_fs st;
                 st_trace := st_trace st ++
                   [EvUrlopen url [("User-Agent", user_agent self)] 30] |}
              Hsafe)
    as (post & -> & Hpost & _).
  eexists. split; [reflexivity|]. cbn [st_fs st_trace]. split; [done|].
  rewrite <- app_assoc, drop_app_length, io_events_app, Hpost. done.
Qed.

Lemma failed_request_removes_stale_file_witness :
  st_fs MoreExamples.stale_state !! "/tmp/i.exe" = Some (Examples.bytes 3) /\
  exists st',
    download_update Examples.updater (Examples.offline "AMD64")
      MoreExamples.small_update None MoreExamples.stale_state
      = (Ok None, st') /\
    st_fs st' = delete "/tmp/i.exe" (st_fs MoreExamples.stale_state) /\
    Spec.io_events
      (drop (length (st_trace MoreExamples.stale_state)) (st_trace st')) = [].
Proof.
  split; [reflexivity|].
  refine (failed_request_removes_stale_file Examples.updater
            (Examples.offline "AMD64") MoreExamples.small_update
            (<["name" := PStr "i.exe"]>
             (<["browser_download_url" := PStr "http://h/i"]> ∅))
            "http://h/i" "i.exe" None MoreExamples.stale_state _ _ _ _ _ _).
  - vm_compute; reflexivity.
  - vm_compute; reflexivity.
  - discriminate.
  - vm_compute; reflexivity.
  - repeat split.
  - left. exists URLError. reflexivity.
Defined.



(** ** From the check to the download *)

(** X19.  An update that [check_for_updates] returned can be handed to
    [download_update] as it is: the asset that [download_update] selects
    is an asset of the release for the architecture, the installer if the
    update has one and the archive otherwise, and it is an object with a
    name that is a string, so that on any host the download has a target
    path. *)
Theorem checked_update_downloads :
  forall (self : HeliumUpdater) (w : world) (info : gmap string pyval),
    check_for_updates self w = Ok (Some info) ->
    (exists i z,
       info !! "installer" = Some i /\ info !! "zip_package" = Some z /\
       ((Select.installer_for (_get_architecture w) i /\
         select_asset info = i) \/
        (i = PNone /\ Select.archive_for (_get_architecture w) z /\
         select_asset info = z))) /\
    (exists asset name,
       select_asset info = PDict asset /\
       asset !! "name" = Some (PStr name) /\
       forall w' : world,
         Select.target_path w' info
           = Some (w_path_join w' (w_tempdir w') name)).
Proof.
  intros self w info Hcheck.
  destruct (check_some_inv self w info Hcheck)
    as (release & c & assets & i & z & _ & _ & _ & _ & Hscan & Hor
        & _ & Hi & Hz & _).
  assert (Hnamed : forall arch suffix a,
            Select.named_for arch suffix a -> PyVal.truthy a = true).
  { intros arch suffix a (d & n & -> & Hn & _).
    exact (truthy_dict_lookup _ _ _ Hn). }
  assert (Hsel : (Select.installer_for (_get_architecture w) i /\
                  select_asset info = i) \/
                 (i = PNone /\ Select.archive_for (_get_architecture w) z /\
                  select_asset info = z)).
  { unfold select_asset. rewrite Hi, Hz. cbn [default]. unfold id.
    destruct (scan_assets_inv _ _ _ _ _ _ Hscan) as [[->|[_ Hinst]] Harch].
    - right. split; [done|]. unfold PyVal.or in *. cbn [PyVal.truthy] in *.
      destruct Harch as [->|[_ Harch]]; [discriminate Hor|done].
    - left. split; [done|]. unfold PyVal.or.
      by rewrite (Hnamed _ _ _ Hinst). }
  split; [by exists i, z|].
  unfold Select.target_path.
  destruct Hsel as [[(d & n & -> & Hn & _) ->]|(_ & (d & n & -> & Hn & _) & ->)];
    exists d, n; rewrite Hn; done.
Qed.

Lemma checked_update_downloads_witness :
  let w := Examples.serving (Examples.offline "AMD64")
             (PDict Examples.mock_release) in
  exists asset name,
    select_asset Examples.mock_update_info = PDict asset /\
    asset !! "name" = Some (PStr name) /\
    forall w' : world,
      Select.target_path w' Examples.mock_update_info
        = Some (w_path_join w' (w_tempdir w') name).
Proof.
  intros w.
  refine (proj2 (checked_update_downloads Examples.updater w
                   Examples.mock_update_info _)).
  vm_cast_no_check (eq_refl (Ok (Some Examples.mock_update_info))).
Defined.
